(** * Verification of the audio inference pipeline of example_ndk_ml

    The development embeds [MLProcessor] (ml_processor.h, ml_processor.cpp)
    and the JNI entry points of jni_wrapper.cpp, and settles the claims
    C1 to C10 of the specification against that embedding.

    - binary32 values are the rationals they denote; a quotient is rounded
      to the nearest binary32 value, ties to even ([round_binary32]);
    - C++ executions end in a value, a thrown exception or undefined
      behaviour ([outcome]);
    - the TensorFlow Lite C API and the JNI environment are not part of the
      repository: they are records of operations over an arbitrary world
      ([TfLiteApi], [JNIEnv]). *)

From Stdlib Require Import ZArith QArith Qabs Lia List String.
From stdpp Require Import gmap strings list.

Open Scope Z_scope.

(** ** binary32 arithmetic used by the preprocessor *)

Definition float := Q.

(** Nearest integer to [n / d] for [0 <= n] and [0 < d], ties to even. *)
Definition round_nearest_even (n d : Z) : Z :=
  let q := n / d in
  match (2 * (n mod d)) ?= d with
  | Lt => q
  | Gt => q + 1
  | Eq => if Z.even q then q else q + 1
  end.

(** [floor_log2_ratio n d] is the integer [e] with [2^e <= n/d < 2^(e+1)],
    for positive [n] and [d]. *)
Definition floor_log2_ratio (n d : Z) : Z :=
  let e := Z.log2 n - Z.log2 d in
  if d * 2 ^ Z.max 0 e <=? n * 2 ^ Z.max 0 (- e) then e else e - 1.

(** Round a rational to binary32: 24 significant bits, exponent at least
    -126 (below that the spacing stays 2^-149); the result is a fraction in
    lowest terms.  Exponent overflow is left out: the program only divides
    values of magnitude at most 32768 by values of magnitude at least 1. *)
Definition round_binary32 (x : Q) : Q :=
  match Qnum x with
  | 0 => 0%Q
  | _ =>
    let a := Z.abs (Qnum x) in
    let d := Z.pos (Qden x) in
    let e := Z.max (floor_log2_ratio a d) (-126) in
    let k := 23 - e in
    let mag :=
      if 0 <=? k
      then (round_nearest_even (a * 2 ^ k) d # Z.to_pos (2 ^ k))%Q
      else inject_Z (round_nearest_even a (d * 2 ^ (- k)) * 2 ^ (- k)) in
    Qred (if Qnum x <? 0 then (- mag)%Q else mag)
  end.

(** [static_cast<float>(int16_t)]: every 16-bit integer is a binary32 value. *)
Definition float_of_int16 (x : Z) : float := inject_Z x.

(** [std::abs(float)] *)
Definition fabs (x : float) : float := Qabs x.

(** [a > b] on floats *)
Definition fgt (a b : float) : bool := negb (Qle_bool a b).

(** [a / b] on floats *)
Definition fdiv (a b : float) : float := round_binary32 (a / b).

(** ** Outcomes of C++ code *)

(** The exceptions the embedding raises.  Allocations are taken to succeed
    (see [vector_of_size]), so [std::bad_alloc] is outside the embedding:
    what is proved about exceptions is when [std::length_error] is thrown,
    not that nothing else can be. *)
Inductive cpp_exception :=
| length_error.      (* std::length_error, from std::vector *)

Inductive undefined_behaviour :=
| indeterminate_read        (* value of an uninitialised member is used *)
| out_of_bounds_read        (* read past the end of an array *)
| out_of_bounds_write       (* write past the end of an array *)
| signed_overflow           (* int arithmetic leaves the range of int *)
| dangling_pointer.         (* delete or use of an object that is not live *)

Inductive outcome (A : Type) :=
| Normal (a : A)
| Throws (e : cpp_exception)
| Undefined (u : undefined_behaviour).
Arguments Normal {A} a.
Arguments Throws {A} e.
Arguments Undefined {A} u.

Definition bind {A B} (c : outcome A) (k : A -> outcome B) : outcome B :=
  match c with
  | Normal a => k a
  | Throws e => Throws e
  | Undefined u => Undefined u
  end.

Declare Scope cpp_scope.
Delimit Scope cpp_scope with cpp.
Notation "'let*' x ':=' c 'in' k" := (bind c (fun x => k))
  (at level 10, x pattern, c at level 100, k at level 200, only parsing) : cpp_scope.
Open Scope cpp_scope.

(** A counted [for] loop whose body may fail. *)
Fixpoint for_each {S : Type} (body : nat -> S -> outcome S)
    (indices : list nat) (s : S) : outcome S :=
  match indices with
  | [] => Normal s
  | i :: rest => let* s' := body i s in for_each body rest s'
  end.

(** ** Machine integers and std::vector *)

Definition INT_MIN : Z := - 2 ^ 31.
Definition INT_MAX : Z := 2 ^ 31 - 1.
Definition in_int (n : Z) : Prop := INT_MIN <= n <= INT_MAX.

(** [a * b] on [int] *)
Definition int_mul (a b : Z) : outcome Z :=
  let p := a * b in
  if (INT_MIN <=? p) && (p <=? INT_MAX) then Normal p
  else Undefined signed_overflow.

(** Conversion of an [int] to [size_t] (64-bit ABI). *)
Definition SIZE_MAX : Z := 2 ^ 64 - 1.
Definition PTRDIFF_MAX : Z := 2 ^ 63 - 1.
Definition to_size_t (n : Z) : Z := n mod 2 ^ 64.

Definition sizeof_float : Z := 4.

(** [std::vector<float>::max_size()] *)
Definition vector_max_size : Z := Z.min (SIZE_MAX / sizeof_float) PTRDIFF_MAX.

(** [std::vector<float> v(n)] and [v.resize(n)] on an empty vector: [n]
    value-initialised floats, or [std::length_error] when the requested
    size exceeds [max_size()].  Memory is taken to be available. *)
Definition vector_of_size (n : Z) : outcome (list float) :=
  let count := to_size_t n in
  if vector_max_size <? count then Throws length_error
  else Normal (replicate (Z.to_nat count) 0%Q).

(** [v[i]] as an rvalue and [v[i] = x], and [p[i]] on the caller's array *)
Definition vec_get {A} (v : list A) (i : nat) : outcome A :=
  match v !! i with
  | Some x => Normal x
  | None => Undefined out_of_bounds_read
  end.

Definition vec_set {A} (v : list A) (i : nat) (x : A) : outcome (list A) :=
  if (i <? length v)%nat then Normal (<[i := x]> v)
  else Undefined out_of_bounds_write.

(** ** The preprocessor (ml_processor.cpp, lines 154 to 170) *)

Definition MODEL_INPUT_LEN : Z := 512.

(** Values of [i] visited by
    [for (int i = 0; i < MODEL_INPUT_LEN && i < length; i++)]. *)
Definition loop_indices (length : Z) : list nat :=
  seq 0 (Z.to_nat (Z.min MODEL_INPUT_LEN length)).

(** Body of the first loop: cast, store, track the peak. *)
Definition convert_step (audioData : list Z) (i : nat)
    (s : list float * float) : outcome (list float * float) :=
  let '(floatData, maxAmplitude) := s in
  let* sample := vec_get audioData i in
  let* floatData := vec_set floatData i (float_of_int16 sample) in
  let* x := vec_get floatData i in
  let absValue := fabs x in
  Normal (floatData, if fgt absValue maxAmplitude then absValue else maxAmplitude).

(** Body of the second loop: divide by the peak. *)
Definition scale_step (maxAmplitude : float) (i : nat)
    (floatData : list float) : outcome (list float) :=
  let* x := vec_get floatData i in
  vec_set floatData i (fdiv x maxAmplitude).

(** The whole preprocessing block: the buffer and the peak. *)
Definition normalize (audioData : list Z) (length : Z)
    : outcome (list float * float) :=
  let* floatData := vector_of_size length in
  let* (floatData, maxAmplitude) :=
    for_each (convert_step audioData) (loop_indices length) (floatData, 0%Q) in
  let* floatData :=
    if fgt maxAmplitude 0%Q
    then for_each (scale_step maxAmplitude) (loop_indices length) floatData
    else Normal floatData in
  Normal (floatData, maxAmplitude).

(** ** The TensorFlow Lite C API

    The library is an external collaborator.  Its objects live in a world
    [W]; pointers are integers and [0] is [nullptr]. *)

Inductive TfLiteStatus :=
| kTfLiteOk
| kTfLiteError
| kTfLiteDelegateError
| kTfLiteApplicationError.

Definition status_is_ok (s : TfLiteStatus) : bool :=
  match s with kTfLiteOk => true | _ => false end.

Record TfLiteApi (W : Type) := {
  TfLiteModelCreateFromFile : string -> W -> Z * W;
  TfLiteModelDelete : Z -> W -> W;
  TfLiteInterpreterOptionsCreate : W -> Z * W;
  TfLiteInterpreterOptionsSetNumThreads : Z -> Z -> W -> W;
  TfLiteInterpreterOptionsDelete : Z -> W -> W;
  TfLiteInterpreterCreate : Z -> Z -> W -> Z * W;
  TfLiteInterpreterDelete : Z -> W -> W;
  TfLiteInterpreterAllocateTensors : Z -> W -> TfLiteStatus * W;
  TfLiteInterpreterInvoke : Z -> W -> TfLiteStatus * W;
  TfLiteInterpreterGetInputTensor : Z -> Z -> W -> Z;
  TfLiteInterpreterGetOutputTensor : Z -> Z -> W -> Z;
  TfLiteTensorNumDims : Z -> W -> Z;
  TfLiteTensorDim : Z -> Z -> W -> Z;
  TfLiteTensorByteSize : Z -> W -> Z;
  (* the float at index [i] of the tensor's buffer *)
  tensor_load : Z -> nat -> W -> float;
  (* the tensor's buffer overwritten with the given floats *)
  tensor_store : Z -> list float -> W -> W
}.
Arguments TfLiteModelCreateFromFile {W}.
Arguments TfLiteModelDelete {W}.
Arguments TfLiteInterpreterOptionsCreate {W}.
Arguments TfLiteInterpreterOptionsSetNumThreads {W}.
Arguments TfLiteInterpreterOptionsDelete {W}.
Arguments TfLiteInterpreterCreate {W}.
Arguments TfLiteInterpreterDelete {W}.
Arguments TfLiteInterpreterAllocateTensors {W}.
Arguments TfLiteInterpreterInvoke {W}.
Arguments TfLiteInterpreterGetInputTensor {W}.
Arguments TfLiteInterpreterGetOutputTensor {W}.
Arguments TfLiteTensorNumDims {W}.
Arguments TfLiteTensorDim {W}.
Arguments TfLiteTensorByteSize {W}.
Arguments tensor_load {W}.
Arguments tensor_store {W}.

(** ** Program state: library world, log output, C++ heap *)

Inductive log_level :=
| INFO | ERROR                              (* printf, ml_processor.cpp *)
| ANDROID_LOG_INFO | ANDROID_LOG_ERROR.     (* logcat, jni_wrapper.cpp *)

Inductive log_arg :=
| arg_string (s : string)
| arg_float (f : float)
| arg_int (n : Z).

Record log_line := {
  level : log_level;
  format : string;
  arguments : list log_arg
}.

Inductive member :=
| Indeterminate
| Pointer (p : Z).

Record MLProcessor := {
  model : member;
  interpreter : member;
  options : member
}.

Record state (W : Type) := {
  world : W;
  log : list log_line;
  heap : gmap positive MLProcessor
}.
Arguments world {W}.
Arguments log {W}.
Arguments heap {W}.

(** Statements: state in, outcome and state out. *)
Definition stmt (W A : Type) : Type := state W -> outcome (A * state W).

Definition ret {W A} (a : A) : stmt W A := fun s => Normal (a, s).

Definition seq_bind {W A B} (c : stmt W A) (k : A -> stmt W B) : stmt W B :=
  fun s =>
    match c s with
    | Normal (a, s') => k a s'
    | Throws e => Throws e
    | Undefined u => Undefined u
    end.

Definition lift {W A} (o : outcome A) : stmt W A :=
  fun s =>
    match o with
    | Normal a => Normal (a, s)
    | Throws e => Throws e
    | Undefined u => Undefined u
    end.

Declare Scope stmt_scope.
Delimit Scope stmt_scope with stmt.
Notation "x <- c ;; k" := (seq_bind c (fun x => k))
  (at level 100, c at next level, right associativity, only parsing) : stmt_scope.
Notation "c ;;; k" := (seq_bind c (fun _ => k))
  (at level 100, right associativity, only parsing) : stmt_scope.

(** A library call that changes the world and returns a value, one that
    only changes the world, and one that only reads it. *)
Definition call {W A} (f : W -> A * W) : stmt W A :=
  fun s =>
    let '(a, w) := f (world s) in
    Normal (a, {| world := w; log := log s; heap := heap s |}).

Definition call_void {W} (f : W -> W) : stmt W unit :=
  fun s => Normal (tt, {| world := f (world s); log := log s; heap := heap s |}).

Definition query {W A} (f : W -> A) : stmt W A :=
  fun s => Normal (f (world s), s).

Definition write_log {W} (l : log_level) (fmt : string) (args : list log_arg)
    : stmt W unit :=
  fun s =>
    Normal (tt, {| world := world s;
                   log := log s ++ [{| level := l; format := fmt; arguments := args |}];
                   heap := heap s |}).

Definition LOG_INFO {W} := @write_log W INFO.
Definition LOG_ERROR {W} := @write_log W ERROR.
Definition LOGI {W} := @write_log W ANDROID_LOG_INFO.
Definition LOGE {W} := @write_log W ANDROID_LOG_ERROR.

(** Use of the value of a data member. *)
Definition read_member (m : member) : outcome Z :=
  match m with
  | Pointer p => Normal p
  | Indeterminate => Undefined indeterminate_read
  end.

Open Scope stmt_scope.

(** ** Tensor copies of the C API (behaviour documented in c_api.h)

    Both copies require the byte count to equal the tensor's byte size;
    otherwise they return [kTfLiteApplicationError] and copy nothing. *)

(** What a [memcpy] of [nbytes] bytes reads from a buffer of floats. *)
Definition read_floats (buffer : list float) (nbytes : Z) : outcome (list float) :=
  if sizeof_float * Z.of_nat (length buffer) <? nbytes
  then Undefined out_of_bounds_read
  else Normal (take (Z.to_nat (nbytes / sizeof_float)) buffer).

Definition TfLiteTensorCopyFromBuffer {W} (api : TfLiteApi W) (tensor : Z)
    (input_data : list float) (input_data_size : Z) : stmt W TfLiteStatus :=
  bytes <- query (TfLiteTensorByteSize api tensor) ;;
  if negb (bytes =? input_data_size) then ret kTfLiteApplicationError
  else
    payload <- lift (read_floats input_data input_data_size) ;;
    call_void (tensor_store api tensor payload) ;;;
    ret kTfLiteOk.

Definition TfLiteTensorCopyToBuffer {W} (api : TfLiteApi W) (tensor : Z)
    (output_data : list float) (output_data_size : Z)
    : stmt W (TfLiteStatus * list float) :=
  bytes <- query (TfLiteTensorByteSize api tensor) ;;
  if negb (bytes =? output_data_size) then ret (kTfLiteApplicationError, output_data)
  else if sizeof_float * Z.of_nat (length output_data) <? output_data_size
  then lift (Undefined out_of_bounds_write)
  else
    w <- query id ;;
    ret (kTfLiteOk,
         map (fun i => tensor_load api tensor i w)
             (seq 0 (Z.to_nat (output_data_size / sizeof_float)))).

(** ** MLProcessor (ml_processor.cpp) *)

(** Storage handed out by [operator new]: no member has a value yet. *)
Definition uninitialized : MLProcessor :=
  {| model := Indeterminate; interpreter := Indeterminate; options := Indeterminate |}.

(** [MLProcessor::MLProcessor(const char* modelPath)], lines 47 to 94.
    The class has no member initialisers and the constructor no initialiser
    list: a member holds a value only once the body assigns it. *)
Definition MLProcessor_ctor {W} (api : TfLiteApi W) (this : MLProcessor)
    (modelPath : string) : stmt W MLProcessor :=
  m <- call (TfLiteModelCreateFromFile api modelPath) ;;
  let this := {| model := Pointer m; interpreter := interpreter this;
                 options := options this |} in
  if m =? 0 then
    LOG_ERROR "Failed to load model from %s" [arg_string modelPath] ;;;
    ret this
  else
    o <- call (TfLiteInterpreterOptionsCreate api) ;;
    let this := {| model := model this; interpreter := interpreter this;
                   options := Pointer o |} in
    call_void (TfLiteInterpreterOptionsSetNumThreads api o 2) ;;;
    i <- call (TfLiteInterpreterCreate api m o) ;;
    let this := {| model := model this; interpreter := Pointer i;
                   options := options this |} in
    if i =? 0 then
      LOG_ERROR "Failed to create interpreter" [] ;;;
      ret this
    else
      status <- call (TfLiteInterpreterAllocateTensors api i) ;;
      (if negb (status_is_ok status)
       then LOG_ERROR "Failed to allocate tensors" []
       else ret tt) ;;;
      LOG_INFO "Model loaded successfully from %s" [arg_string modelPath] ;;;
      ret this.

(** [MLProcessor::~MLProcessor()], lines 102 to 111. *)
Definition MLProcessor_dtor {W} (api : TfLiteApi W) (this : MLProcessor)
    : stmt W unit :=
  i <- lift (read_member (interpreter this)) ;;
  (if negb (i =? 0) then call_void (TfLiteInterpreterDelete api i) else ret tt) ;;;
  o <- lift (read_member (options this)) ;;
  (if negb (o =? 0) then call_void (TfLiteInterpreterOptionsDelete api o) else ret tt) ;;;
  m <- lift (read_member (model this)) ;;
  (if negb (m =? 0) then call_void (TfLiteModelDelete api m) else ret tt).

(** Lines 209 to 212: the product of the output tensor's dimensions. *)
Definition output_size {W} (api : TfLiteApi W) (outputTensor : Z) : stmt W Z :=
  numDims <- query (TfLiteTensorNumDims api outputTensor) ;;
  w <- query id ;;
  lift (for_each
          (fun i outputSize =>
             int_mul outputSize (TfLiteTensorDim api outputTensor (Z.of_nat i) w))
          (seq 0 (Z.to_nat numDims)) 1).

(** Lines 154 to 180 of [processAudio]: normalise the samples and copy
    [MODEL_INPUT_LEN] floats of the buffer into the input tensor.  The
    status of the copy is not looked at. *)
Definition fill_input {W} (api : TfLiteApi W) (inputTensor : Z)
    (audioData : list Z) (length : Z) : stmt W unit :=
  normalized <- lift (normalize audioData length) ;;
  let '(floatData, maxAmplitude) := normalized in
  LOG_INFO "Audio normalization - Max amplitude: %f" [arg_float maxAmplitude] ;;;
  TfLiteTensorCopyFromBuffer api inputTensor floatData
    (MODEL_INPUT_LEN * sizeof_float) ;;;
  ret tt.

(** Lines 209 to 222 of [processAudio]: size the result by the output
    tensor's dimensions and copy the tensor into it. *)
Definition read_output {W} (api : TfLiteApi W) (outputTensor : Z)
    : stmt W (list float) :=
  outputSize <- output_size api outputTensor ;;
  result <- lift (vector_of_size outputSize) ;;
  copied <- TfLiteTensorCopyToBuffer api outputTensor result
              (to_size_t outputSize * sizeof_float) ;;
  ret (snd copied).

(** [MLProcessor::processAudio(const int16_t* audioData, int length)],
    lines 128 to 223. *)
Definition processAudio {W} (api : TfLiteApi W) (this : MLProcessor)
    (audioData : list Z) (length : Z) : stmt W (list float) :=
  let result : list float := [] in
  i <- lift (read_member (interpreter this)) ;;
  if i =? 0 then
    LOG_ERROR "Interpreter not initialized" [] ;;;
    ret result
  else
    inputTensor <- query (TfLiteInterpreterGetInputTensor api i 0) ;;
    if inputTensor =? 0 then
      LOG_ERROR "Failed to get input tensor" [] ;;;
      ret result
    else
      fill_input api inputTensor audioData length ;;;
      status <- call (TfLiteInterpreterInvoke api i) ;;
      if negb (status_is_ok status) then
        LOG_ERROR "Failed to invoke interpreter" [] ;;;
        ret result
      else
        outputTensor <- query (TfLiteInterpreterGetOutputTensor api i 0) ;;
        if outputTensor =? 0 then
          LOG_ERROR "Failed to get output tensor" [] ;;;
          ret result
        else
          read_output api outputTensor.

(** ** The JNI bridge (jni_wrapper.cpp)

    A handle is the address of an [MLProcessor] cast to [jlong]. *)

Record JNIEnv (jstring jshortArray : Type) := {
  GetStringUTFChars : jstring -> option string;
  GetArrayLength : jshortArray -> Z;
  GetShortArrayElements : jshortArray -> option (list Z)
}.
Arguments GetStringUTFChars {jstring jshortArray}.
Arguments GetArrayLength {jstring jshortArray}.
Arguments GetShortArrayElements {jstring jshortArray}.

(** The object a pointer designates, if it is live. *)
Definition object_at {W} (handle : Z) (s : state W) : option MLProcessor :=
  match handle with
  | Z.pos a => heap s !! a
  | _ => None
  end.

(** [new MLProcessor(path)] *)
Definition new_MLProcessor {W} (api : TfLiteApi W) (path : string) : stmt W Z :=
  fun s =>
    let a := fresh (dom (heap s)) in
    match MLProcessor_ctor api uninitialized path s with
    | Normal (this, s') =>
        Normal (Z.pos a,
                {| world := world s'; log := log s'; heap := <[a := this]> (heap s') |})
    | Throws e => Throws e
    | Undefined u => Undefined u
    end.

(** [delete processor] for a non-null pointer *)
Definition delete_MLProcessor {W} (api : TfLiteApi W) (processor : Z) : stmt W unit :=
  fun s =>
    match processor, object_at processor s with
    | Z.pos a, Some this =>
        match MLProcessor_dtor api this s with
        | Normal (_, s') =>
            Normal (tt, {| world := world s'; log := log s';
                           heap := delete a (heap s') |})
        | Throws e => Throws e
        | Undefined u => Undefined u
        end
    | _, _ => Undefined dangling_pointer
    end.

(** [nativeInit], lines 76 to 97 *)
Definition nativeInit {W jstring jshortArray} (api : TfLiteApi W)
    (env : JNIEnv jstring jshortArray) (modelPath : jstring) : stmt W Z :=
  match GetStringUTFChars env modelPath with
  | None =>
      LOGE "Failed to get string from Java" [] ;;;
      ret 0
  | Some path =>
      LOGI "Initializing MLProcessor with model: %s" [arg_string path] ;;;
      processor <- new_MLProcessor api path ;;
      ret processor
  end.

(** [nativeProcessAudio], lines 117 to 161.  The result is the content of
    the [jfloatArray] handed back when [NewFloatArray] provides one; the
    null array of lines 153 to 157, handed back when it does not, is not
    represented.  The log and the state do not depend on that branch. *)
Definition nativeProcessAudio {W jstring jshortArray} (api : TfLiteApi W)
    (env : JNIEnv jstring jshortArray) (handle : Z) (audioData : jshortArray)
    : stmt W (list float) :=
  if handle =? 0 then
    LOGE "Invalid processor handle" [] ;;;
    ret []
  else
    let length := GetArrayLength env audioData in
    if length <=? 0 then
      LOGE "Empty audio data array" [] ;;;
      ret []
    else
      LOGI "Processing %d audio samples" [arg_int length] ;;;
      match GetShortArrayElements env audioData with
      | None =>
          LOGE "Failed to get array elements" [] ;;;
          ret []
      | Some data =>
          result <- (fun s =>
                       match object_at handle s with
                       | Some this => processAudio api this data length s
                       | None => Undefined dangling_pointer
                       end) ;;
          LOGI "Returned %zu predictions" [arg_int (Z.of_nat (List.length result))] ;;;
          ret result
      end.

(** [nativeClose], lines 180 to 192 *)
Definition nativeClose {W} (api : TfLiteApi W) (handle : Z) : stmt W unit :=
  if negb (handle =? 0) then
    LOGI "Closing MLProcessor" [] ;;;
    delete_MLProcessor api handle
  else
    LOGE "Attempted to close invalid processor handle" [].

(** The number of elements of a tensor with the given dimensions. *)
Definition element_count (dims : list Z) : Z := fold_left Z.mul dims 1.

(** ** A test double of the engine

    One model file parses; the input tensor holds [MODEL_INPUT_LEN] floats;
    the output tensor has the configured dimensions and, after a successful
    invoke, echoes the input.  Like the real interpreter, the double refuses
    to invoke before a successful tensor allocation.  It counts the writes
    to the input tensor and the invoke calls it receives. *)

Record engine := {
  eng_model_file : string;
  eng_allocation : TfLiteStatus;     (* answer of AllocateTensors *)
  eng_output_dims : list Z;
  eng_allocated : bool;
  eng_input : list float;
  eng_output : list float;
  eng_stores : nat;
  eng_invokes : nat
}.

Definition stub_model : Z := 1.
Definition stub_options : Z := 2.
Definition stub_interpreter : Z := 3.
Definition stub_input_tensor : Z := 4.
Definition stub_output_tensor : Z := 5.

Definition stub_api : TfLiteApi engine := {|
  TfLiteModelCreateFromFile path w :=
    (if String.eqb path (eng_model_file w) then stub_model else 0, w);
  TfLiteModelDelete _ w := w;
  TfLiteInterpreterOptionsCreate w := (stub_options, w);
  TfLiteInterpreterOptionsSetNumThreads _ _ w := w;
  TfLiteInterpreterOptionsDelete _ w := w;
  TfLiteInterpreterCreate m _ w :=
    (if m =? stub_model then stub_interpreter else 0, w);
  TfLiteInterpreterDelete _ w := w;
  TfLiteInterpreterAllocateTensors _ w :=
    (eng_allocation w,
     {| eng_model_file := eng_model_file w; eng_allocation := eng_allocation w;
        eng_output_dims := eng_output_dims w;
        eng_allocated := status_is_ok (eng_allocation w);
        eng_input := eng_input w; eng_output := eng_output w;
        eng_stores := eng_stores w; eng_invokes := eng_invokes w |});
  TfLiteInterpreterInvoke _ w :=
    (if eng_allocated w then kTfLiteOk else kTfLiteError,
     {| eng_model_file := eng_model_file w; eng_allocation := eng_allocation w;
        eng_output_dims := eng_output_dims w;
        eng_allocated := eng_allocated w;
        eng_input := eng_input w;
        eng_output := if eng_allocated w then eng_input w else eng_output w;
        eng_stores := eng_stores w; eng_invokes := S (eng_invokes w) |});
  TfLiteInterpreterGetInputTensor i index w :=
    if (i =? stub_interpreter) && (index =? 0) then stub_input_tensor else 0;
  TfLiteInterpreterGetOutputTensor i index w :=
    if (i =? stub_interpreter) && (index =? 0) then stub_output_tensor else 0;
  TfLiteTensorNumDims t w :=
    if t =? stub_output_tensor then Z.of_nat (length (eng_output_dims w)) else 1;
  TfLiteTensorDim t index w :=
    if t =? stub_output_tensor then nth (Z.to_nat index) (eng_output_dims w) 0
    else MODEL_INPUT_LEN;
  TfLiteTensorByteSize t w :=
    if t =? stub_output_tensor then sizeof_float * element_count (eng_output_dims w)
    else MODEL_INPUT_LEN * sizeof_float;
  tensor_load t index w :=
    nth index (if t =? stub_output_tensor then eng_output w else eng_input w) 0%Q;
  tensor_store t data w :=
    {| eng_model_file := eng_model_file w; eng_allocation := eng_allocation w;
       eng_output_dims := eng_output_dims w;
       eng_allocated := eng_allocated w;
       eng_input := if t =? stub_input_tensor then data else eng_input w;
       eng_output := eng_output w;
       eng_stores := S (eng_stores w); eng_invokes := eng_invokes w |}
|}.

(** The window [1, 2, ..., n]. *)
Definition ramp (n : nat) : list Z := map Z.of_nat (seq 1 n).

(** A fresh engine: nothing allocated, buffers empty. *)
Definition stub_engine (allocation : TfLiteStatus) (dims : list Z) : engine :=
  {| eng_model_file := "model.tflite"; eng_allocation := allocation;
     eng_output_dims := dims; eng_allocated := false;
     eng_input := []; eng_output := [];
     eng_stores := 0; eng_invokes := 0 |}.

Definition initial_state (allocation : TfLiteStatus) (dims : list Z) : state engine :=
  {| world := stub_engine allocation dims; log := []; heap := ∅ |}.

(** The engine after a successful construction, and a state holding it. *)
Definition allocated_engine (dims : list Z) : engine :=
  {| eng_model_file := "model.tflite"; eng_allocation := kTfLiteOk;
     eng_output_dims := dims; eng_allocated := true;
     eng_input := []; eng_output := [];
     eng_stores := 0; eng_invokes := 0 |}.

Definition ready_state (dims : list Z) : state engine :=
  {| world := allocated_engine dims; log := []; heap := ∅ |}.

(** The states a call on a full window goes through on the test double:
    after the input tensor is written, and after invoke. *)
Definition stub_filled (dims : list Z) : state engine :=
  match fill_input stub_api stub_input_tensor (ramp 512) 512 (ready_state dims) with
  | Normal (_, s1) => s1
  | _ => ready_state dims
  end.

Definition stub_invoked (dims : list Z) : state engine :=
  {| world := snd (TfLiteInterpreterInvoke stub_api stub_interpreter
                     (world (stub_filled dims)));
     log := log (stub_filled dims); heap := heap (stub_filled dims) |}.

(** The processor the constructor builds on the test double. *)
Definition stub_processor : MLProcessor :=
  {| model := Pointer stub_model; interpreter := Pointer stub_interpreter;
     options := Pointer stub_options |}.

(** A JNI environment whose strings and arrays are always available. *)
Definition stub_env : JNIEnv string (list Z) := {|
  GetStringUTFChars s := Some s;
  GetArrayLength a := Z.of_nat (length a);
  GetShortArrayElements a := Some a
|}.

(** A JNI environment whose arrays are known by the length they report
    only. *)
Definition length_env : JNIEnv string Z := {|
  GetStringUTFChars s := Some s;
  GetArrayLength a := a;
  GetShortArrayElements _ := None
|}.

(** A JNI environment that cannot hand out the characters of a string. *)
Definition stringless_env : JNIEnv string (list Z) := {|
  GetStringUTFChars _ := None;
  GetArrayLength a := Z.of_nat (length a);
  GetShortArrayElements a := Some a
|}.

(** A state in which handle 1 designates a constructed processor. *)
Definition live_state : state engine :=
  {| world := allocated_engine [1; 2]; log := [];
     heap := {[ 1%positive := stub_processor ]} |}.

(** Result and final state of a statement, for stating what a run did. *)
Definition result_of {W A} (o : outcome (A * state W)) : outcome A :=
  match o with
  | Normal (a, _) => Normal a
  | Throws e => Throws e
  | Undefined u => Undefined u
  end.

Definition final_state {W A} (o : outcome (A * state W)) : option (state W) :=
  match o with
  | Normal (_, s) => Some s
  | _ => None
  end.

(** Run a second statement in the state the first one left. *)
Definition then_run {W A B} (o : outcome (A * state W)) (k : A -> stmt W B)
    : outcome (B * state W) :=
  match o with
  | Normal (a, s) => k a s
  | Throws e => Throws e
  | Undefined u => Undefined u
  end.

(** ** What the specification calls the consumed window and its peak *)

(** The first [min(length, MODEL_INPUT_LEN)] samples. *)
Definition consumed (audioData : list Z) (length : Z) : list Z :=
  take (Z.to_nat (Z.min MODEL_INPUT_LEN length)) audioData.

(** The maximum absolute value of a list of samples ([0] when empty). *)
Definition peak (samples : list Z) : Z :=
  fold_left (fun m x => Z.max m (Z.abs x)) samples 0.

(** The buffer the preprocessor is expected to leave: the consumed samples
    divided by their peak when it is positive, the consumed samples
    themselves otherwise, followed by the untouched zero slots. *)
Definition expected_buffer (audioData : list Z) (length : Z) : list float :=
  let window := consumed audioData length in
  let p := peak window in
  (if 0 <? p
   then map (fun x => fdiv (float_of_int16 x) (inject_Z p)) window
   else map float_of_int16 window)
  ++ replicate (Z.to_nat length - List.length window) 0%Q.

(** The dimensions of a tensor as read through the API: its rank, then
    each size. *)
Definition tensor_dims {W} (api : TfLiteApi W) (tensor : Z) (w : W) : list Z :=
  map (fun k => TfLiteTensorDim api tensor (Z.of_nat k) w)
      (seq 0 (Z.to_nat (TfLiteTensorNumDims api tensor w))).

(** Every partial product of the dimensions is an [int]. *)
Definition fits_int (dims : list Z) : Prop :=
  forall k : nat, in_int (element_count (take k dims)).

(** With a log line appended. *)
Definition logged {W} (s : state W) (line : log_line) : state W :=
  {| world := world s; log := log s ++ [line]; heap := heap s |}.

Definition error_line (l : log_level) (fmt : string) : log_line :=
  {| level := l; format := fmt; arguments := [] |}.

(** A call of [processAudio] that gets as far as the output tensor: the
    interpreter and the input tensor are there, the input was written
    (leaving state [s1]), invoke answered [kTfLiteOk] (leaving state
    [s2]) and the output tensor [outputTensor] is not null. *)
Definition reaches_output {W} (api : TfLiteApi W) (this : MLProcessor)
    (audioData : list Z) (length : Z) (s s2 : state W) (outputTensor : Z) : Prop :=
  exists i s1,
    interpreter this = Pointer i /\ i <> 0 /\
    TfLiteInterpreterGetInputTensor api i 0 (world s) <> 0 /\
    fill_input api (TfLiteInterpreterGetInputTensor api i 0 (world s))
      audioData length s = Normal (tt, s1) /\
    call (TfLiteInterpreterInvoke api i) s1 = Normal (kTfLiteOk, s2) /\
    TfLiteInterpreterGetOutputTensor api i 0 (world s2) = outputTensor /\
    outputTensor <> 0.

(** The processor the constructor leaves when the model does not load. *)
Definition load_failed : MLProcessor :=
  {| model := Pointer 0; interpreter := Indeterminate; options := Indeterminate |}.

(** The test double, except that no interpreter can be created. *)
Definition stub_api_without_interpreter : TfLiteApi engine := {|
  TfLiteModelCreateFromFile := TfLiteModelCreateFromFile stub_api;
  TfLiteModelDelete := TfLiteModelDelete stub_api;
  TfLiteInterpreterOptionsCreate := TfLiteInterpreterOptionsCreate stub_api;
  TfLiteInterpreterOptionsSetNumThreads := TfLiteInterpreterOptionsSetNumThreads stub_api;
  TfLiteInterpreterOptionsDelete := TfLiteInterpreterOptionsDelete stub_api;
  TfLiteInterpreterCreate _ _ w := (0, w);
  TfLiteInterpreterDelete := TfLiteInterpreterDelete stub_api;
  TfLiteInterpreterAllocateTensors := TfLiteInterpreterAllocateTensors stub_api;
  TfLiteInterpreterInvoke := TfLiteInterpreterInvoke stub_api;
  TfLiteInterpreterGetInputTensor := TfLiteInterpreterGetInputTensor stub_api;
  TfLiteInterpreterGetOutputTensor := TfLiteInterpreterGetOutputTensor stub_api;
  TfLiteTensorNumDims := TfLiteTensorNumDims stub_api;
  TfLiteTensorDim := TfLiteTensorDim stub_api;
  TfLiteTensorByteSize := TfLiteTensorByteSize stub_api;
  tensor_load := tensor_load stub_api;
  tensor_store := tensor_store stub_api
|}.

(** The test double, except that its input tensor holds a single float. *)
Definition stub_api_one_float_input : TfLiteApi engine := {|
  TfLiteModelCreateFromFile := TfLiteModelCreateFromFile stub_api;
  TfLiteModelDelete := TfLiteModelDelete stub_api;
  TfLiteInterpreterOptionsCreate := TfLiteInterpreterOptionsCreate stub_api;
  TfLiteInterpreterOptionsSetNumThreads := TfLiteInterpreterOptionsSetNumThreads stub_api;
  TfLiteInterpreterOptionsDelete := TfLiteInterpreterOptionsDelete stub_api;
  TfLiteInterpreterCreate := TfLiteInterpreterCreate stub_api;
  TfLiteInterpreterDelete := TfLiteInterpreterDelete stub_api;
  TfLiteInterpreterAllocateTensors := TfLiteInterpreterAllocateTensors stub_api;
  TfLiteInterpreterInvoke := TfLiteInterpreterInvoke stub_api;
  TfLiteInterpreterGetInputTensor := TfLiteInterpreterGetInputTensor stub_api;
  TfLiteInterpreterGetOutputTensor := TfLiteInterpreterGetOutputTensor stub_api;
  TfLiteTensorNumDims := TfLiteTensorNumDims stub_api;
  TfLiteTensorDim := TfLiteTensorDim stub_api;
  TfLiteTensorByteSize t w :=
    if t =? stub_output_tensor then sizeof_float * element_count (eng_output_dims w)
    else sizeof_float;
  tensor_load := tensor_load stub_api;
  tensor_store := tensor_store stub_api
|}.

(** Lines 187 to 222 of [processAudio]: invoke the interpreter, then
    extract the output tensor. *)
Definition invoke_and_extract {W} (api : TfLiteApi W) (i : Z) : stmt W (list float) :=
  status <- call (TfLiteInterpreterInvoke api i) ;;
  if negb (status_is_ok status) then
    LOG_ERROR "Failed to invoke interpreter" [] ;;;
    ret []
  else
    outputTensor <- query (TfLiteInterpreterGetOutputTensor api i 0) ;;
    if outputTensor =? 0 then
      LOG_ERROR "Failed to get output tensor" [] ;;;
      ret []
    else
      read_output api outputTensor.

(** What a caller sees of a run besides the log: how it ended, and the
    library world it left. *)
Definition observable {W A} (o : outcome (A * state W)) : outcome (A * W) :=
  match o with
  | Normal (a, s) => Normal (a, world s)
  | Throws e => Throws e
  | Undefined u => Undefined u
  end.

(** Calls made one after the other, each in the state the previous one
    left. *)
Fixpoint run_all {W A} (calls : list (stmt W A)) : stmt W (list A) :=
  match calls with
  | [] => ret []
  | c :: rest =>
      a <- c ;;
      others <- run_all rest ;;
      ret (a :: others)
  end.

(** The line [processAudio] logs after normalising. *)
Definition amplitude_line (maxAmplitude : float) : log_line :=
  {| level := INFO; format := "Audio normalization - Max amplitude: %f";
     arguments := [arg_float maxAmplitude] |}.

(** [2^e <= n / d], for positive [n] and [d], without leaving the
    integers. *)
Definition ratio_at_least_pow2 (n d e : Z) : Prop :=
  d * 2 ^ Z.max 0 e <= n * 2 ^ Z.max 0 (- e).

(** The values of [int16_t]. *)
Definition is_int16 (x : Z) : Prop := - 32768 <= x <= 32767.

(** * Proofs *)

(** [lia] with the constants of the program unfolded. *)
Ltac const_lia :=
  unfold MODEL_INPUT_LEN, INT_MAX, INT_MIN, sizeof_float in *; lia.

(** ** Rounding *)

Lemma round_nearest_even_bounds n d N :
  0 < d -> 0 <= n -> n <= N * d ->
  0 <= round_nearest_even n d <= N.
Proof.
  intros Hd Hn HN. unfold round_nearest_even.
  pose proof (Z.div_mod n d ltac:(lia)) as Hdm.
  pose proof (Z.mod_pos_bound n d Hd) as Hr.
  assert (0 <= n / d) by (apply Z.div_pos; lia).
  assert (n / d <= N) by (apply Z.div_le_upper_bound; lia).
  destruct (Z.compare_spec (2 * (n mod d)) d) as [He|Hl|Hg].
  - destruct (Z.even (n / d)); [lia|]. split; [lia|]. nia.
  - lia.
  - split; [lia|]. nia.
Qed.

Lemma round_nearest_even_exact d N :
  0 < d -> round_nearest_even (d * N) d = N.
Proof.
  intros Hd. unfold round_nearest_even.
  rewrite (Z.mul_comm d N), Z.mod_mul, Z.div_mul by lia.
  destruct d; cbn; first [lia | reflexivity].
Qed.

(** The rounded quotient is within half a unit of the exact one. *)
Lemma round_nearest_even_nearest n d :
  0 < d -> 2 * Z.abs (n - round_nearest_even n d * d) <= d.
Proof.
  intros Hd. unfold round_nearest_even.
  pose proof (Z.div_mod n d ltac:(lia)) as Hdm.
  pose proof (Z.mod_pos_bound n d Hd) as Hr.
  destruct (Z.compare_spec (2 * (n mod d)) d) as [He|Hl|Hg];
    [destruct (Z.even (n / d))| |]; nia.
Qed.

(** [floor_log2_ratio] brackets the ratio between two powers of two. *)
Lemma floor_log2_ratio_spec n d :
  0 < n -> 0 < d ->
  let e := floor_log2_ratio n d in
  d * 2 ^ Z.max 0 e <= n * 2 ^ Z.max 0 (- e) < 2 * d * 2 ^ Z.max 0 e.
Proof.
  intros Hn Hd. unfold floor_log2_ratio.
  destruct (Z.log2_spec n Hn) as [Hn1 Hn2].
  destruct (Z.log2_spec d Hd) as [Hd1 Hd2].
  pose proof (Z.log2_nonneg n) as Hln. pose proof (Z.log2_nonneg d) as Hld.
  set (la := Z.log2 n) in *. set (ld := Z.log2 d) in *.
  rewrite !Z.pow_succ_r in * by lia.
  destruct (Z.leb_spec (d * 2 ^ Z.max 0 (la - ld)) (n * 2 ^ Z.max 0 (- (la - ld)))) as [Ht|Ht];
    cbv zeta.
  - split; [exact Ht|].
    destruct (Z.le_ge_cases 0 (la - ld)) as [He|He].
    + rewrite (Z.max_r 0 (la - ld)) by lia.
      rewrite (Z.max_l 0 (- (la - ld))) by lia.
      replace la with (ld + (la - ld)) in Hn2 by lia.
      rewrite Z.pow_add_r in Hn2 by lia.
      assert (0 < 2 ^ (la - ld)) by (apply Z.pow_pos_nonneg; lia).
      nia.
    + rewrite (Z.max_l 0 (la - ld)) by lia.
      rewrite (Z.max_r 0 (- (la - ld))) by lia.
      replace ld with (la + (- (la - ld))) in Hd1 by lia.
      rewrite Z.pow_add_r in Hd1 by lia.
      assert (0 < 2 ^ (- (la - ld))) by (apply Z.pow_pos_nonneg; lia).
      nia.
  - destruct (Z.le_gt_cases 1 (la - ld)) as [He|He].
    + rewrite (Z.max_r 0 (la - ld)) in Ht by lia.
      rewrite (Z.max_l 0 (- (la - ld))) in Ht by lia.
      rewrite (Z.max_r 0 (la - ld - 1)) by lia.
      rewrite (Z.max_l 0 (- (la - ld - 1))) by lia.
      replace (la - ld) with (Z.succ (la - ld - 1)) in Ht by lia.
      rewrite Z.pow_succ_r in Ht by lia.
      replace la with (ld + Z.succ (la - ld - 1)) in Hn1 by lia.
      rewrite Z.pow_add_r, Z.pow_succ_r in Hn1 by lia.
      assert (0 < 2 ^ (la - ld - 1)) by (apply Z.pow_pos_nonneg; lia).
      nia.
    + rewrite (Z.max_l 0 (la - ld)) in Ht by lia.
      rewrite (Z.max_r 0 (- (la - ld))) in Ht by lia.
      rewrite (Z.max_l 0 (la - ld - 1)) by lia.
      rewrite (Z.max_r 0 (- (la - ld - 1))) by lia.
      replace (- (la - ld - 1)) with (Z.succ (- (la - ld))) by lia.
      rewrite Z.pow_succ_r by lia.
      replace ld with (la + (- (la - ld))) in Hd2 by lia.
      rewrite Z.pow_add_r in Hd2 by lia.
      assert (0 < 2 ^ (- (la - ld))) by (apply Z.pow_pos_nonneg; lia).
      nia.
Qed.

Lemma floor_log2_ratio_le_0 a d :
  0 < a -> a <= d -> floor_log2_ratio a d <= 0.
Proof.
  intros Ha Had. unfold floor_log2_ratio.
  pose proof (Z.log2_le_mono a d Had).
  destruct (_ <=? _); lia.
Qed.

(** The magnitude computed for a ratio of absolute value at most one. *)
Lemma round_binary32_small n d :
  n <> 0 -> Z.abs n <= Z.pos d ->
  exists k m,
    0 <= k /\ 0 <= m <= 2 ^ k /\
    (Z.abs n = Z.pos d -> m = 2 ^ k) /\
    round_binary32 (n # d) =
      Qred (if n <? 0 then - (m # Z.to_pos (2 ^ k)) else m # Z.to_pos (2 ^ k))%Q.
Proof.
  intros Hn Hle.
  set (a := Z.abs n). set (e := Z.max (floor_log2_ratio a (Z.pos d)) (-126)).
  assert (Ha : 0 < a) by (unfold a; lia).
  assert (He : e <= 0).
  { unfold e. pose proof (floor_log2_ratio_le_0 a (Z.pos d) Ha Hle). lia. }
  exists (23 - e), (round_nearest_even (a * 2 ^ (23 - e)) (Z.pos d)).
  assert (Hp : 0 < 2 ^ (23 - e)) by (apply Z.pow_pos_nonneg; lia).
  split; [lia|]. split; [|split].
  - apply round_nearest_even_bounds; nia.
  - intros Heq. fold a in Heq. rewrite Heq.
    apply round_nearest_even_exact. lia.
  - unfold round_binary32. cbn [Qnum Qden]. fold a. fold e.
    destruct n as [|p|p]; [lia| |];
      (destruct (0 <=? 23 - e) eqn:Hk; [reflexivity | lia]).
Qed.

Lemma Qred_eq_1 (q : Q) : (q == 1)%Q -> Qred q = 1%Q.
Proof. intros H. apply (Qred_complete q 1) in H. exact H. Qed.

Lemma Qred_eq_m1 (q : Q) : (q == -1)%Q -> Qred q = (-1)%Q.
Proof. intros H. apply (Qred_complete q (-1)) in H. exact H. Qed.

Lemma round_binary32_range n d :
  Z.abs n <= Z.pos d ->
  (-1 <= round_binary32 (n # d) <= 1)%Q.
Proof.
  intros Hle. destruct (Z.eq_dec n 0) as [->|Hn].
  { unfold round_binary32. cbn. split; discriminate. }
  destruct (round_binary32_small n d Hn Hle) as (k & m & Hk & Hm & _ & ->).
  assert (Hp : 0 < 2 ^ k) by (apply Z.pow_pos_nonneg; lia).
  rewrite Qred_correct.
  destruct (n <? 0); unfold Qle; cbn [Qnum Qden Qopp];
    rewrite Z2Pos.id by lia; lia.
Qed.

Lemma round_binary32_unit n d :
  Z.abs n = Z.pos d ->
  Qabs (round_binary32 (n # d)) = 1%Q.
Proof.
  intros Heq. assert (Hn : n <> 0) by lia.
  destruct (round_binary32_small n d Hn ltac:(lia)) as (k & m & Hk & Hm & Hex & ->).
  rewrite (Hex Heq).
  assert (Hp : 0 < 2 ^ k) by (apply Z.pow_pos_nonneg; lia).
  destruct (n <? 0).
  - rewrite Qred_eq_m1; [reflexivity|].
    unfold Qeq. cbn [Qnum Qden Qopp]. rewrite Z2Pos.id by lia. lia.
  - rewrite Qred_eq_1; [reflexivity|].
    unfold Qeq. cbn [Qnum Qden]. rewrite Z2Pos.id by lia. lia.
Qed.

Lemma fdiv_int x p :
  0 < p ->
  fdiv (float_of_int16 x) (inject_Z p) = round_binary32 (x # Z.to_pos p).
Proof.
  intros Hp. unfold fdiv, float_of_int16. f_equal.
  destruct p as [|p|p]; try lia.
  unfold Qdiv, Qinv, Qmult, inject_Z. cbn [Qnum Qden Z.to_pos].
  rewrite Z.mul_1_r. reflexivity.
Qed.

Lemma fgt_int a b : fgt (inject_Z a) (inject_Z b) = (b <? a).
Proof.
  unfold fgt, Qle_bool, inject_Z. cbn [Qnum Qden].
  rewrite !Z.mul_1_r.
  destruct (Z.leb_spec a b), (Z.ltb_spec b a); try reflexivity; lia.
Qed.

Lemma fabs_int x : fabs (float_of_int16 x) = inject_Z (Z.abs x).
Proof. reflexivity. Qed.

Lemma Qred_inject_Z z : Qred (inject_Z z) = inject_Z z.
Proof.
  unfold Qred, inject_Z.
  pose proof (Z.ggcd_gcd z 1) as Hg.
  pose proof (Z.ggcd_correct_divisors z 1) as Hdiv.
  destruct (Z.ggcd z 1) as [g [aa bb]]. cbn [fst snd] in *.
  rewrite Z.gcd_1_r in Hg. subst g. destruct Hdiv as [Ha Hb].
  rewrite Z.mul_1_l in Ha, Hb. subst aa bb. reflexivity.
Qed.

(** Integers below 2^24 in magnitude are binary32 values: rounding leaves
    them alone, so the cast of a 16-bit sample is exact. *)
Lemma round_binary32_integer x :
  Z.abs x < 2 ^ 24 -> round_binary32 (inject_Z x) = inject_Z x.
Proof.
  intros Hx. destruct (Z.eq_dec x 0) as [->|Hnz]; [reflexivity|].
  unfold round_binary32, inject_Z. cbn [Qnum Qden].
  set (a := Z.abs x). assert (Ha : 0 < a) by (unfold a; lia).
  assert (He : floor_log2_ratio a 1 = Z.log2 a).
  { unfold floor_log2_ratio. change (Z.log2 1) with 0. rewrite Z.sub_0_r.
    pose proof (Z.log2_nonneg a).
    rewrite Z.max_r, Z.max_l by lia.
    destruct (Z.log2_spec a Ha) as [Hlo _].
    destruct (Z.leb_spec (1 * 2 ^ Z.log2 a) (a * 2 ^ 0)); [reflexivity | lia]. }
  rewrite He.
  assert (Hl : 0 <= Z.log2 a < 24).
  { split; [apply Z.log2_nonneg|]. apply Z.log2_lt_pow2; [exact Ha | exact Hx]. }
  rewrite Z.max_l by lia.
  destruct (Z.leb_spec 0 (23 - Z.log2 a)); [|lia].
  rewrite (Z.mul_comm a), <- (Z.mul_1_l (2 ^ (23 - Z.log2 a) * a)).
  rewrite round_nearest_even_exact by lia.
  assert (Hp : 0 < 2 ^ (23 - Z.log2 a)) by (apply Z.pow_pos_nonneg; lia).
  transitivity (Qred (inject_Z x)); [|apply Qred_inject_Z].
  destruct x as [|p|p]; try lia; cbn [Z.ltb Z.compare];
    apply Qred_complete; unfold Qeq, inject_Z; cbn [Qnum Qden Qopp];
    rewrite Z2Pos.id by lia; unfold a; lia.
Qed.

Lemma float_of_int16_exact x :
  - 32768 <= x <= 32767 -> round_binary32 (inject_Z x) = float_of_int16 x.
Proof. intros H. apply round_binary32_integer. lia. Qed.

(** ** The loops of the preprocessor *)

Lemma for_each_app {S : Type} (body : nat -> S -> outcome S) l1 l2 s :
  for_each body (l1 ++ l2) s =
  bind (for_each body l1 s) (for_each body l2).
Proof.
  revert s. induction l1 as [|i l1 IH]; intros s; [reflexivity|].
  cbn. destruct (body i s); cbn; auto.
Qed.

Lemma vec_get_lookup {A} (v : list A) i x :
  v !! i = Some x -> vec_get v i = Normal x.
Proof. intros H. unfold vec_get. rewrite H. reflexivity. Qed.

Lemma vec_set_in_range {A} (v : list A) i x :
  (i < length v)%nat -> vec_set v i x = Normal (<[i := x]> v).
Proof.
  intros H. unfold vec_set.
  destruct (Nat.ltb_spec i (length v)); [reflexivity | lia].
Qed.

Lemma insert_middle {A} (l1 l2 : list A) (n : nat) (x y : A) :
  length l1 = n -> <[n := x]> (l1 ++ y :: l2) = l1 ++ x :: l2.
Proof.
  intros <-. rewrite insert_app_r_alt by lia.
  rewrite Nat.sub_diag. reflexivity.
Qed.

Lemma peak_snoc samples x :
  peak (samples ++ [x]) = Z.max (peak samples) (Z.abs x).
Proof. unfold peak. rewrite fold_left_app. reflexivity. Qed.

Lemma peak_nonneg samples : 0 <= peak samples.
Proof.
  induction samples as [|x l IH] using rev_ind; [cbn; lia|].
  rewrite peak_snoc. lia.
Qed.

Lemma peak_upper samples x : x ∈ samples -> Z.abs x <= peak samples.
Proof.
  induction samples as [|y l IH] using rev_ind; intros Hin.
  - inversion Hin.
  - rewrite peak_snoc. apply elem_of_app in Hin as [Hin|Hin].
    + specialize (IH Hin). lia.
    + apply list_elem_of_singleton in Hin. subst. lia.
Qed.

Lemma peak_attained samples :
  0 < peak samples -> exists x, x ∈ samples /\ Z.abs x = peak samples.
Proof.
  induction samples as [|y l IH] using rev_ind; intros Hpos.
  - cbn in Hpos. lia.
  - rewrite peak_snoc in *.
    destruct (Z.max_spec (peak l) (Z.abs y)) as [[Hlt ->]|[Hle ->]].
    + exists y. split; [apply elem_of_app; right; constructor | reflexivity].
    + rewrite Z.max_l in Hpos by lia.
      destruct (IH Hpos) as (x & Hx & Hax).
      exists x. split; [apply elem_of_app; left; exact Hx | exact Hax].
Qed.

Lemma peak_zero samples : peak samples = 0 -> Forall (fun x => x = 0) samples.
Proof.
  intros H. apply Forall_forall. intros x Hx.
  pose proof (peak_upper samples x Hx). lia.
Qed.

(** After [n] iterations of the first loop the first [n] slots hold the
    samples and the running maximum is their peak. *)
Lemma convert_loop audioData (L n : nat) :
  (n <= L)%nat -> (n <= length audioData)%nat ->
  for_each (convert_step audioData) (seq 0 n) (replicate L 0%Q, 0%Q) =
  Normal (map float_of_int16 (take n audioData) ++ replicate (L - n) 0%Q,
          inject_Z (peak (take n audioData))).
Proof.
  induction n as [|n IH]; intros HL Ha.
  - cbn. rewrite Nat.sub_0_r. reflexivity.
  - rewrite seq_S, for_each_app, IH by lia. cbn [bind for_each Nat.add].
    destruct (lookup_lt_is_Some_2 audioData n ltac:(lia)) as [x Hx].
    rewrite (take_S_r _ _ _ Hx).
    unfold convert_step. rewrite (vec_get_lookup _ _ _ Hx). cbn [bind].
    assert (Hlen : length (map float_of_int16 (take n audioData)) = n).
    { rewrite length_map, length_take. lia. }
    rewrite vec_set_in_range
      by (rewrite length_app, Hlen, length_replicate; lia).
    cbn [bind].
    replace (L - n)%nat with (S (L - S n)) by lia. cbn [replicate].
    rewrite (insert_middle _ _ _ _ _ Hlen).
    rewrite (vec_get_lookup _ _ (float_of_int16 x))
      by (apply list_lookup_middle; symmetry; exact Hlen).
    cbn [bind]. rewrite fabs_int, fgt_int, peak_snoc.
    rewrite map_app, <- app_assoc. cbn [map app].
    do 2 f_equal.
    destruct (Z.ltb_spec (peak (take n audioData)) (Z.abs x)); f_equal; lia.
Qed.

(** After [n] iterations of the second loop the first [n] slots are
    divided by the peak. *)
Lemma scale_loop (p : float) (floatData : list float) (n : nat) :
  (n <= length floatData)%nat ->
  for_each (scale_step p) (seq 0 n) floatData =
  Normal (map (fun v => fdiv v p) (take n floatData) ++ drop n floatData).
Proof.
  induction n as [|n IH]; intros Hn.
  - cbn. rewrite drop_0. reflexivity.
  - rewrite seq_S, for_each_app, IH by lia. cbn [bind for_each Nat.add].
    destruct (lookup_lt_is_Some_2 floatData n ltac:(lia)) as [x Hx].
    assert (Hlen : length (map (fun v => fdiv v p) (take n floatData)) = n).
    { rewrite length_map, length_take. lia. }
    rewrite (take_S_r _ _ _ Hx), (drop_S _ _ _ Hx).
    unfold scale_step.
    rewrite (vec_get_lookup _ _ x)
      by (apply list_lookup_middle; symmetry; exact Hlen).
    cbn [bind].
    rewrite vec_set_in_range
      by (rewrite length_app, Hlen; cbn; lia).
    rewrite (insert_middle _ _ _ _ _ Hlen), map_app, <- app_assoc.
    reflexivity.
Qed.

Lemma vector_of_size_nonneg n :
  0 <= n <= INT_MAX -> vector_of_size n = Normal (replicate (Z.to_nat n) 0%Q).
Proof.
  intros Hn. unfold vector_of_size, to_size_t.
  assert (Hmax : vector_max_size = 2 ^ 62 - 1) by reflexivity.
  unfold INT_MAX in Hn.
  rewrite Z.mod_small by lia.
  destruct (Z.ltb_spec vector_max_size n); [lia | reflexivity].
Qed.

Lemma vector_of_size_negative n :
  INT_MIN <= n < 0 -> vector_of_size n = Throws length_error.
Proof.
  intros Hn. unfold vector_of_size, to_size_t.
  assert (Hmax : vector_max_size = 2 ^ 62 - 1) by reflexivity.
  unfold INT_MIN in Hn.
  assert (Hmod : n mod 2 ^ 64 = n + 2 ^ 64).
  { symmetry. apply (Z.mod_unique n (2 ^ 64) (-1)); lia. }
  rewrite Hmod.
  destruct (Z.ltb_spec vector_max_size (n + 2 ^ 64)); [reflexivity | lia].
Qed.

Lemma consumed_length audioData length :
  0 <= length <= Z.of_nat (List.length audioData) ->
  List.length (consumed audioData length) = Z.to_nat (Z.min MODEL_INPUT_LEN length).
Proof. intros H. unfold consumed. rewrite length_take. lia. Qed.

(** The preprocessor returns [expected_buffer] and the peak. *)
Lemma normalize_correct audioData length :
  0 <= length <= INT_MAX ->
  length <= Z.of_nat (List.length audioData) ->
  normalize audioData length =
  Normal (expected_buffer audioData length,
          inject_Z (peak (consumed audioData length))).
Proof.
  intros Hlen Hptr. unfold normalize, expected_buffer, loop_indices.
  rewrite vector_of_size_nonneg by assumption. cbn [bind].
  rewrite consumed_length by lia. unfold consumed.
  set (n := Z.to_nat (Z.min MODEL_INPUT_LEN length)).
  rewrite convert_loop by lia. cbn [bind].
  change 0%Q with (inject_Z 0). rewrite fgt_int.
  destruct (0 <? peak (take n audioData)) eqn:Hp; cbn [bind]; [|reflexivity].
  rewrite scale_loop
    by (rewrite length_app, length_map, length_take, length_replicate; lia).
  cbn [bind].
  assert (Hl : List.length (map float_of_int16 (take n audioData)) = n).
  { rewrite length_map, length_take. lia. }
  rewrite take_app_length', drop_app_length', map_map by (symmetry; exact Hl).
  reflexivity.
Qed.

Lemma expected_buffer_length audioData length :
  0 <= length <= Z.of_nat (List.length audioData) ->
  List.length (expected_buffer audioData length) = Z.to_nat length.
Proof.
  intros H. unfold expected_buffer.
  rewrite length_app, length_replicate.
  assert (List.length (consumed audioData length) =
          Z.to_nat (Z.min MODEL_INPUT_LEN length)) by (apply consumed_length; lia).
  destruct (0 <? peak (consumed audioData length)); rewrite length_map; lia.
Qed.

Lemma map_zero_samples (samples : list Z) :
  Forall (fun x => x = 0) samples ->
  map float_of_int16 samples = replicate (List.length samples) 0%Q.
Proof.
  induction 1 as [|x l Hx _ IH]; [reflexivity|].
  subst x. cbn. rewrite IH. reflexivity.
Qed.

Lemma fdiv_peak_range x p :
  0 < p -> Z.abs x <= p ->
  (-1 <= fdiv (float_of_int16 x) (inject_Z p) <= 1)%Q.
Proof.
  intros Hp Hx. rewrite fdiv_int by assumption.
  apply round_binary32_range. rewrite Z2Pos.id by assumption. exact Hx.
Qed.

Lemma fdiv_peak_unit x p :
  0 < p -> Z.abs x = p ->
  Qabs (fdiv (float_of_int16 x) (inject_Z p)) = 1%Q.
Proof.
  intros Hp Hx. rewrite fdiv_int by assumption.
  apply round_binary32_unit. rewrite Z2Pos.id by assumption. exact Hx.
Qed.

(** ** The preprocessor: peak normalisation *)

(** C5: for a window of [length] samples the preprocessor returns normally;
    the peak it computes is the maximum absolute value of the first
    [min(length, MODEL_INPUT_LEN)] samples.  When the peak is positive every
    consumed sample is replaced by its quotient by the peak, all values of
    the buffer lie in [-1, 1] and one of them has absolute value exactly 1.
    When the peak is zero nothing is divided and the buffer is all zero. *)
Theorem C5_peak_normalization (audioData : list Z) (length : Z) :
  0 <= length <= INT_MAX ->
  length <= Z.of_nat (List.length audioData) ->
  let window := consumed audioData length in
  exists floatData : list float,
    normalize audioData length = Normal (floatData, inject_Z (peak window)) /\
    List.length floatData = Z.to_nat length /\
    (forall x, x ∈ window -> Z.abs x <= peak window) /\
    (0 < peak window ->
       (exists x, x ∈ window /\ Z.abs x = peak window) /\
       (forall i x, window !! i = Some x ->
          floatData !! i =
            Some (fdiv (float_of_int16 x) (inject_Z (peak window)))) /\
       Forall (fun v => (-1 <= v <= 1)%Q) floatData /\
       (exists v, v ∈ floatData /\ Qabs v = 1%Q)) /\
    (peak window = 0 -> floatData = replicate (Z.to_nat length) 0%Q).
Proof.
  intros Hlen Hptr window.
  exists (expected_buffer audioData length).
  assert (Hw : List.length window = Z.to_nat (Z.min MODEL_INPUT_LEN length))
    by (apply consumed_length; lia).
  split; [apply normalize_correct; assumption|].
  unfold expected_buffer. fold window.
  split; [|split; [|split]].
  - apply expected_buffer_length. lia.
  - apply peak_upper.
  - intros Hpos. destruct (Z.ltb_spec 0 (peak window)) as [_|]; [|lia].
    set (g := fun x => fdiv (float_of_int16 x) (inject_Z (peak window))).
    change (map g window) with (g <$> window).
    split; [apply peak_attained; exact Hpos|]. split; [|split].
    + intros i x Hx. rewrite lookup_app_l.
      * rewrite list_lookup_fmap, Hx. reflexivity.
      * rewrite length_fmap. eapply lookup_lt_Some. exact Hx.
    + apply Forall_app. split.
      * apply Forall_fmap, Forall_forall. intros x Hx. cbn.
        apply fdiv_peak_range; [exact Hpos | apply peak_upper; exact Hx].
      * apply Forall_replicate. split; discriminate.
    + destruct (peak_attained window Hpos) as (x & Hx & Hax).
      exists (g x). split.
      * apply elem_of_app. left. apply list_elem_of_fmap_2. exact Hx.
      * apply fdiv_peak_unit; assumption.
  - intros Hzero. rewrite Hzero. cbn [Z.ltb Z.compare].
    rewrite map_zero_samples by (apply peak_zero; exact Hzero).
    rewrite <- replicate_add. f_equal. lia.
Qed.

Lemma C5_peak_normalization_witness :
  exists floatData : list float,
    normalize [3; -6; 2; 5] 3 = Normal (floatData, inject_Z 6) /\
    Forall (fun v => (-1 <= v <= 1)%Q) floatData /\
    (exists v, v ∈ floatData /\ Qabs v = 1%Q).
Proof.
  destruct (C5_peak_normalization [3; -6; 2; 5] 3)
    as (floatData & Hrun & _ & _ & Hpos & _);
    [unfold INT_MAX; lia | cbn; lia |].
  exists floatData. split; [exact Hrun|].
  destruct Hpos as (_ & _ & Hrange & Hunit); [vm_compute; reflexivity|].
  split; assumption.
Defined.


(** ** Arithmetic of buffers and sizes *)

Lemma read_floats_short (buffer : list float) nbytes :
  sizeof_float * Z.of_nat (List.length buffer) < nbytes ->
  read_floats buffer nbytes = Undefined out_of_bounds_read.
Proof.
  intros H. unfold read_floats.
  destruct (Z.ltb_spec (sizeof_float * Z.of_nat (List.length buffer)) nbytes);
    [reflexivity | lia].
Qed.

Lemma read_floats_input (buffer : list float) :
  (512 <= List.length buffer)%nat ->
  read_floats buffer (MODEL_INPUT_LEN * sizeof_float) = Normal (take 512 buffer).
Proof.
  intros H. unfold read_floats, MODEL_INPUT_LEN, sizeof_float.
  destruct (Z.ltb_spec (4 * Z.of_nat (List.length buffer)) (512 * 4));
    [lia | reflexivity].
Qed.

Lemma consumed_long audioData length :
  MODEL_INPUT_LEN <= length -> consumed audioData length = take 512 audioData.
Proof.
  intros H. unfold consumed. rewrite Z.min_l by assumption. reflexivity.
Qed.

(** The first [MODEL_INPUT_LEN] slots of the buffer are a function of the
    first [MODEL_INPUT_LEN] samples. *)
Lemma expected_buffer_prefix audioData length :
  MODEL_INPUT_LEN <= length <= Z.of_nat (List.length audioData) ->
  take 512 (expected_buffer audioData length) =
  take 512 (expected_buffer (take 512 audioData) MODEL_INPUT_LEN).
Proof.
  intros H. unfold expected_buffer.
  rewrite !consumed_long by (assumption || const_lia).
  rewrite take_take, Nat.min_id.
  assert (Hw : List.length (take 512 audioData) = 512%nat).
  { rewrite length_take. const_lia. }
  destruct (0 <? peak (take 512 audioData));
    rewrite !take_app_length' by (rewrite length_map; exact (eq_sym Hw));
    reflexivity.
Qed.

Lemma int_mul_normal a b p :
  int_mul a b = Normal p -> p = a * b /\ in_int p.
Proof.
  unfold int_mul, in_int. intros H.
  destruct ((INT_MIN <=? a * b) && (a * b <=? INT_MAX)) eqn:E; [|discriminate].
  apply andb_true_iff in E as [E1 E2]. apply Z.leb_le in E1, E2.
  injection H as <-. auto.
Qed.

Lemma int_mul_in_int a b :
  in_int (a * b) -> int_mul a b = Normal (a * b).
Proof.
  unfold int_mul, in_int. intros [H1 H2].
  apply Z.leb_le in H1, H2. rewrite H1, H2. reflexivity.
Qed.

Lemma product_loop_sound (f : nat -> Z) (l : list nat) (acc p : Z) :
  for_each (fun i a => int_mul a (f i)) l acc = Normal p ->
  p = fold_left Z.mul (map f l) acc.
Proof.
  revert acc. induction l as [|i l IH]; intros acc H; cbn in *.
  - congruence.
  - unfold int_mul in H at 1.
    destruct ((INT_MIN <=? acc * f i) && (acc * f i <=? INT_MAX));
      [|discriminate].
    cbn [bind] in H. apply IH. exact H.
Qed.

Lemma product_loop_in_int (f : nat -> Z) (l : list nat) (acc p : Z) :
  in_int acc ->
  for_each (fun i a => int_mul a (f i)) l acc = Normal p ->
  in_int p.
Proof.
  revert acc. induction l as [|i l IH]; intros acc Hacc H; cbn in *.
  - congruence.
  - destruct (int_mul acc (f i)) as [q| |] eqn:E; try discriminate.
    apply int_mul_normal in E as [_ Hq]. cbn [bind] in H. eauto.
Qed.

Lemma product_loop_complete (f : nat -> Z) (l : list nat) (acc : Z) :
  (forall k : nat, in_int (fold_left Z.mul (take k (map f l)) acc)) ->
  for_each (fun i a => int_mul a (f i)) l acc =
  Normal (fold_left Z.mul (map f l) acc).
Proof.
  revert acc. induction l as [|i l IH]; intros acc H; cbn.
  - reflexivity.
  - rewrite int_mul_in_int by exact (H 1%nat). cbn [bind].
    apply IH. intros k. exact (H (S k)).
Qed.

Lemma in_int_1 : in_int 1.
Proof. unfold in_int. const_lia. Qed.

Lemma to_size_t_nonneg n : 0 <= n <= INT_MAX -> to_size_t n = n.
Proof. intros H. unfold to_size_t. apply Z.mod_small. const_lia. Qed.

Lemma element_count_zero (dims : list Z) :
  element_count dims = 0 -> 0 ∈ dims.
Proof.
  unfold element_count.
  assert (G : forall acc, fold_left Z.mul dims acc = 0 -> acc = 0 \/ 0 ∈ dims).
  { induction dims as [|d dims IH]; intros acc H; cbn in H; [auto|].
    destruct (IH _ H) as [Hz|Hin].
    - apply Z.mul_eq_0 in Hz as [->| ->]; [auto|]. right. constructor.
    - right. constructor. exact Hin. }
  intros H. destruct (G 1 H) as [|]; [lia | assumption].
Qed.

(** ** Unfolding statements *)

Ltac unfold_stmt :=
  unfold seq_bind, lift, query, call, call_void, ret,
         LOG_INFO, LOG_ERROR, LOGI, LOGE, write_log.

Section Processor.

Context {W : Type} (api : TfLiteApi W).

(** ** The constructor and the destructor *)

(** The constructor returns normally whatever the library answers. *)
Lemma MLProcessor_ctor_returns this modelPath s :
  exists this' s', MLProcessor_ctor api this modelPath s = Normal (this', s').
Proof.
  unfold MLProcessor_ctor. unfold_stmt.
  destruct (TfLiteModelCreateFromFile api modelPath (world s)) as [m w1].
  destruct (m =? 0); [eauto|]. cbn [world log heap].
  destruct (TfLiteInterpreterOptionsCreate api w1) as [o w2].
  cbn [world log heap].
  destruct (TfLiteInterpreterCreate api m o _) as [i w3].
  destruct (i =? 0); [eauto|]. cbn [world log heap].
  destruct (TfLiteInterpreterAllocateTensors api i w3) as [status w4].
  destruct (negb (status_is_ok status)); eauto.
Qed.

Lemma MLProcessor_ctor_load_failure modelPath s :
  fst (TfLiteModelCreateFromFile api modelPath (world s)) = 0 ->
  MLProcessor_ctor api uninitialized modelPath s =
  Normal (load_failed,
          logged {| world := snd (TfLiteModelCreateFromFile api modelPath (world s));
                    log := log s; heap := heap s |}
                 {| level := ERROR; format := "Failed to load model from %s";
                    arguments := [arg_string modelPath] |}).
Proof.
  intros Hm. unfold MLProcessor_ctor. unfold_stmt.
  destruct (TfLiteModelCreateFromFile api modelPath (world s)) as [m w1].
  cbn in Hm. subst m. reflexivity.
Qed.

(** Once the model is loaded and the interpreter created, the object the
    constructor leaves is the same whatever the allocation of the tensors
    answers. *)
Lemma MLProcessor_ctor_ignores_allocation modelPath (s : state W)
    m w1 o w2 i w3 status w4 :
  TfLiteModelCreateFromFile api modelPath (world s) = (m, w1) -> m <> 0 ->
  TfLiteInterpreterOptionsCreate api w1 = (o, w2) ->
  TfLiteInterpreterCreate api m o
    (TfLiteInterpreterOptionsSetNumThreads api o 2 w2) = (i, w3) -> i <> 0 ->
  TfLiteInterpreterAllocateTensors api i w3 = (status, w4) ->
  exists lines,
    MLProcessor_ctor api uninitialized modelPath s =
    Normal ({| model := Pointer m; interpreter := Pointer i; options := Pointer o |},
            {| world := w4; log := log s ++ lines; heap := heap s |}).
Proof.
  intros Hm Hmz Ho Hi Hiz Ha. unfold MLProcessor_ctor. unfold_stmt.
  rewrite Hm. destruct (Z.eqb_spec m 0); [contradiction|]. cbn [world log heap].
  rewrite Ho. cbn [world log heap]. rewrite Hi.
  destruct (Z.eqb_spec i 0); [contradiction|]. cbn [world log heap].
  rewrite Ha. destruct (negb (status_is_ok status)); cbn [world log heap].
  - rewrite <- app_assoc. eexists. reflexivity.
  - eexists. reflexivity.
Qed.

Lemma MLProcessor_dtor_returns m i o (s : state W) :
  exists w,
    MLProcessor_dtor api
      {| model := Pointer m; interpreter := Pointer i; options := Pointer o |} s =
    Normal (tt, {| world := w; log := log s; heap := heap s |}).
Proof.
  destruct s as [w0 l0 h0].
  unfold MLProcessor_dtor. unfold_stmt. cbn [read_member interpreter options model].
  destruct (negb (i =? 0)), (negb (o =? 0)), (negb (m =? 0));
    cbn [world log heap]; eexists; reflexivity.
Qed.

(** C1: when the model does not load, the constructor returns with [model]
    null and makes no further library call, but [interpreter] and [options]
    were never assigned: the null tests of [processAudio] and of the
    destructor then use indeterminate values, so neither an empty result nor
    a safe destruction follows. *)
Theorem C1_failed_load_leaves_members_unset (modelPath : string) (s : state W) :
  fst (TfLiteModelCreateFromFile api modelPath (world s)) = 0 ->
  exists s',
    MLProcessor_ctor api uninitialized modelPath s = Normal (load_failed, s') /\
    model load_failed = Pointer 0 /\
    world s' = snd (TfLiteModelCreateFromFile api modelPath (world s)) /\
    (forall audioData length s'',
       processAudio api load_failed audioData length s'' =
       Undefined indeterminate_read) /\
    (forall s'', MLProcessor_dtor api load_failed s'' = Undefined indeterminate_read).
Proof.
  intros Hm. eexists. split; [apply MLProcessor_ctor_load_failure; exact Hm|].
  repeat split.
Qed.

(** ** The branches of processAudio *)

Lemma processAudio_branches this audioData length s :
  processAudio api this audioData length s =
  match interpreter this with
  | Indeterminate => Undefined indeterminate_read
  | Pointer i =>
    if i =? 0
    then Normal ([], logged s (error_line ERROR "Interpreter not initialized"))
    else
      let inputTensor := TfLiteInterpreterGetInputTensor api i 0 (world s) in
      if inputTensor =? 0
      then Normal ([], logged s (error_line ERROR "Failed to get input tensor"))
      else
        match fill_input api inputTensor audioData length s with
        | Normal (_, s1) =>
          let s2 := {| world := snd (TfLiteInterpreterInvoke api i (world s1));
                       log := log s1; heap := heap s1 |} in
          if negb (status_is_ok (fst (TfLiteInterpreterInvoke api i (world s1))))
          then Normal ([], logged s2 (error_line ERROR "Failed to invoke interpreter"))
          else
            let outputTensor :=
              TfLiteInterpreterGetOutputTensor api i 0 (world s2) in
            if outputTensor =? 0
            then Normal ([], logged s2 (error_line ERROR "Failed to get output tensor"))
            else read_output api outputTensor s2
        | Throws e => Throws e
        | Undefined u => Undefined u
        end
  end.
Proof.
  unfold processAudio. unfold seq_bind at 1.
  destruct (interpreter this) as [|i]; [reflexivity|]. cbn [lift read_member].
  destruct (i =? 0); [reflexivity|].
  unfold seq_bind at 1. cbn [query]. cbv zeta.
  destruct (_ =? 0); [reflexivity|].
  unfold seq_bind at 1.
  destruct (fill_input _ _ _ _ _) as [[[] s1]| |]; [|reflexivity..].
  unfold seq_bind at 1. unfold call.
  destruct (TfLiteInterpreterInvoke api i (world s1)) as [status w2].
  cbn [fst snd]. destruct (negb _); [reflexivity|].
  unfold seq_bind at 1. cbn [query world].
  destruct (_ =? 0); reflexivity.
Qed.

(** ** Writing the input tensor *)

(** The copy into the input tensor looks at the first [MODEL_INPUT_LEN]
    floats of the buffer only. *)
Lemma copy_from_buffer_prefix tensor
    (b1 b2 : list float) (s : state W) :
  (512 <= List.length b1)%nat -> (512 <= List.length b2)%nat ->
  take 512 b1 = take 512 b2 ->
  TfLiteTensorCopyFromBuffer api tensor b1 (MODEL_INPUT_LEN * sizeof_float) s =
  TfLiteTensorCopyFromBuffer api tensor b2 (MODEL_INPUT_LEN * sizeof_float) s.
Proof.
  intros H1 H2 Heq. unfold TfLiteTensorCopyFromBuffer. unfold_stmt.
  destruct (negb _); [reflexivity|].
  rewrite !read_floats_input, Heq by assumption. reflexivity.
Qed.

Lemma fill_input_short tensor audioData length
    (s : state W) :
  TfLiteTensorByteSize api tensor (world s) = MODEL_INPUT_LEN * sizeof_float ->
  0 <= length < MODEL_INPUT_LEN ->
  length <= Z.of_nat (List.length audioData) ->
  fill_input api tensor audioData length s = Undefined out_of_bounds_read.
Proof.
  intros Hbytes Hlen Hptr. unfold fill_input.
  unfold TfLiteTensorCopyFromBuffer. unfold_stmt.
  rewrite normalize_correct
    by (unfold INT_MAX, MODEL_INPUT_LEN in *; lia).
  cbn [world log heap]. rewrite Hbytes, Z.eqb_refl. cbn [negb].
  rewrite read_floats_short; [reflexivity|].
  rewrite expected_buffer_length by lia.
  unfold sizeof_float, MODEL_INPUT_LEN in *. lia.
Qed.

(** C3: for [0 < length < MODEL_INPUT_LEN] the buffer handed to the copy has
    [length] slots, not [MODEL_INPUT_LEN]; when the input tensor holds
    [MODEL_INPUT_LEN] floats the copy of [MODEL_INPUT_LEN] floats reads past
    the end of that buffer. *)
Theorem C3_short_window_is_overread (this : MLProcessor) (audioData : list Z) (length : Z) (s : state W) (i : Z) :
  interpreter this = Pointer i -> i <> 0 ->
  TfLiteInterpreterGetInputTensor api i 0 (world s) <> 0 ->
  TfLiteTensorByteSize api (TfLiteInterpreterGetInputTensor api i 0 (world s))
    (world s) = MODEL_INPUT_LEN * sizeof_float ->
  0 < length < MODEL_INPUT_LEN ->
  length <= Z.of_nat (List.length audioData) ->
  (exists floatData maxAmplitude,
     normalize audioData length = Normal (floatData, maxAmplitude) /\
     Z.of_nat (List.length floatData) = length /\
     Z.of_nat (List.length floatData) < MODEL_INPUT_LEN) /\
  processAudio api this audioData length s = Undefined out_of_bounds_read.
Proof.
  intros Hi Hnz Ht Hbytes Hlen Hptr. split.
  - eexists _, _. split.
    + apply normalize_correct; unfold INT_MAX, MODEL_INPUT_LEN in *; lia.
    + rewrite expected_buffer_length by lia. lia.
  - rewrite processAudio_branches, Hi.
    destruct (Z.eqb_spec i 0); [contradiction|]. cbv zeta.
    destruct (Z.eqb_spec (TfLiteInterpreterGetInputTensor api i 0 (world s)) 0);
      [contradiction|].
    rewrite fill_input_short by (assumption || lia). reflexivity.
Qed.

(** ** Windows longer than the model input *)

Lemma fill_input_prefix tensor a1 a2 l1 l2 (s : state W) :
  MODEL_INPUT_LEN < l1 <= INT_MAX -> MODEL_INPUT_LEN < l2 <= INT_MAX ->
  l1 <= Z.of_nat (List.length a1) -> l2 <= Z.of_nat (List.length a2) ->
  take 512 a1 = take 512 a2 ->
  fill_input api tensor a1 l1 s = fill_input api tensor a2 l2 s.
Proof.
  intros H1 H2 Hp1 Hp2 Heq. unfold fill_input.
  unfold seq_bind at 1 3. unfold lift.
  rewrite !normalize_correct by const_lia.
  rewrite !consumed_long by const_lia. rewrite Heq.
  unfold seq_bind at 1 3. unfold LOG_INFO at 1 2, write_log.
  unfold seq_bind.
  rewrite (copy_from_buffer_prefix tensor
             (expected_buffer a1 l1) (expected_buffer a2 l2)).
  - reflexivity.
  - rewrite expected_buffer_length by const_lia. const_lia.
  - rewrite expected_buffer_length by const_lia. const_lia.
  - rewrite (expected_buffer_prefix a1), (expected_buffer_prefix a2), Heq by const_lia.
    reflexivity.
Qed.

(** C9: two windows longer than [MODEL_INPUT_LEN] that agree on their first
    [MODEL_INPUT_LEN] samples yield the same peak and buffers with the same
    first [MODEL_INPUT_LEN] slots, and [processAudio] run on them from the
    same state ends in the same outcome: the same input tensor content, the
    same predictions and the same final state. *)
Theorem C9_only_the_first_512_samples_count (this : MLProcessor) (s : state W) (a1 a2 : list Z) (l1 l2 : Z) :
  MODEL_INPUT_LEN < l1 <= INT_MAX -> MODEL_INPUT_LEN < l2 <= INT_MAX ->
  l1 <= Z.of_nat (List.length a1) -> l2 <= Z.of_nat (List.length a2) ->
  take 512 a1 = take 512 a2 ->
  (exists b1 b2 maxAmplitude,
     normalize a1 l1 = Normal (b1, maxAmplitude) /\
     normalize a2 l2 = Normal (b2, maxAmplitude) /\
     read_floats b1 (MODEL_INPUT_LEN * sizeof_float) =
     read_floats b2 (MODEL_INPUT_LEN * sizeof_float)) /\
  processAudio api this a1 l1 s = processAudio api this a2 l2 s.
Proof.
  intros H1 H2 Hp1 Hp2 Heq. split.
  - exists (expected_buffer a1 l1), (expected_buffer a2 l2),
      (inject_Z (peak (take 512 a1))).
    split; [|split].
    + rewrite normalize_correct, consumed_long by const_lia. reflexivity.
    + rewrite normalize_correct, consumed_long, Heq by const_lia. reflexivity.
    + rewrite !read_floats_input
        by (rewrite expected_buffer_length by const_lia; const_lia).
      rewrite (expected_buffer_prefix a1), (expected_buffer_prefix a2), Heq by const_lia.
      reflexivity.
  - rewrite !processAudio_branches.
    destruct (interpreter this) as [|i]; [reflexivity|].
    destruct (i =? 0); [reflexivity|]. cbv zeta.
    destruct (_ =? 0); [reflexivity|].
    rewrite (fill_input_prefix _ a1 a2 l1 l2) by assumption.
    reflexivity.
Qed.

(** ** Reading the output tensor *)

(** The size loop returns the product of the dimensions, and leaves the
    state alone. *)
Lemma output_size_sound tensor (s s' : state W) n :
  output_size api tensor s = Normal (n, s') ->
  s' = s /\ n = element_count (tensor_dims api tensor (world s)) /\ in_int n.
Proof.
  unfold output_size, tensor_dims, element_count. unfold_stmt.
  destruct (for_each _ _ _) as [p| |] eqn:E; try discriminate.
  intros H. injection H as <- <-.
  split; [reflexivity|]. split.
  - apply product_loop_sound in E. exact E.
  - eapply product_loop_in_int; [exact in_int_1 | exact E].
Qed.

Lemma output_size_complete tensor (s : state W) :
  fits_int (tensor_dims api tensor (world s)) ->
  output_size api tensor s =
  Normal (element_count (tensor_dims api tensor (world s)), s).
Proof.
  intros Hfit. unfold output_size, tensor_dims, element_count in *. unfold_stmt.
  rewrite product_loop_complete by exact Hfit. reflexivity.
Qed.

(** The copy out of the tensor keeps the length of the destination. *)
Lemma copy_to_buffer_length tensor
    (output_data : list float) (n : Z) (s : state W) :
  0 <= n -> Z.of_nat (List.length output_data) = n ->
  exists status data,
    TfLiteTensorCopyToBuffer api tensor output_data (n * sizeof_float) s =
      Normal ((status, data), s) /\
    Z.of_nat (List.length data) = n.
Proof.
  intros Hn Hlen. unfold TfLiteTensorCopyToBuffer. unfold_stmt.
  destruct (negb _); [eauto|].
  destruct (Z.ltb_spec (sizeof_float * Z.of_nat (List.length output_data))
              (n * sizeof_float)); [const_lia|].
  eexists _, _. split; [reflexivity|].
  rewrite length_map, length_seq. unfold sizeof_float.
  rewrite Z.div_mul by lia. lia.
Qed.

Lemma read_output_sound tensor (s s' : state W) v :
  read_output api tensor s = Normal (v, s') ->
  s' = s /\
  Z.of_nat (List.length v) = element_count (tensor_dims api tensor (world s)).
Proof.
  unfold read_output. unfold seq_bind at 1.
  destruct (output_size api tensor s) as [[n s1]| |] eqn:E; try discriminate.
  apply output_size_sound in E as (-> & -> & Hint).
  set (n := element_count _) in *.
  unfold seq_bind at 1. unfold lift.
  destruct (Z.lt_ge_cases n 0) as [Hneg|Hpos].
  - rewrite vector_of_size_negative by (unfold in_int in Hint; const_lia).
    discriminate.
  - rewrite vector_of_size_nonneg by (unfold in_int in Hint; const_lia).
    rewrite to_size_t_nonneg by (unfold in_int in Hint; const_lia).
    destruct (copy_to_buffer_length tensor (replicate (Z.to_nat n) 0%Q) n s)
      as (status & data & Hcopy & Hdata);
      [lia | rewrite length_replicate; lia |].
    unfold seq_bind, ret. rewrite Hcopy. cbn [snd].
    intros H. injection H as <- <-. auto.
Qed.

Lemma read_output_complete tensor (s : state W) :
  fits_int (tensor_dims api tensor (world s)) ->
  0 <= element_count (tensor_dims api tensor (world s)) ->
  exists v,
    read_output api tensor s = Normal (v, s) /\
    Z.of_nat (List.length v) = element_count (tensor_dims api tensor (world s)).
Proof.
  intros Hfit Hpos. unfold read_output. unfold seq_bind at 1.
  rewrite output_size_complete by exact Hfit.
  set (n := element_count _) in *.
  assert (Hint : in_int n) by (specialize (Hfit (List.length (tensor_dims api tensor (world s)))); rewrite firstn_all in Hfit; exact Hfit).
  unfold seq_bind at 1. unfold lift.
  rewrite vector_of_size_nonneg by (unfold in_int in Hint; const_lia).
  rewrite to_size_t_nonneg by (unfold in_int in Hint; const_lia).
  destruct (copy_to_buffer_length tensor (replicate (Z.to_nat n) 0%Q) n s)
    as (status & data & Hcopy & Hdata);
    [lia | rewrite length_replicate; lia |].
  unfold seq_bind, ret. rewrite Hcopy. cbn [snd]. eauto.
Qed.

(** A product that stays within [int] and comes out negative is no size:
    [result.resize] throws. *)
Lemma read_output_negative tensor (s : state W) :
  fits_int (tensor_dims api tensor (world s)) ->
  element_count (tensor_dims api tensor (world s)) < 0 ->
  read_output api tensor s = Throws length_error.
Proof.
  intros Hfit Hneg. unfold read_output. unfold seq_bind at 1.
  rewrite output_size_complete by exact Hfit.
  set (n := element_count _) in *.
  assert (Hint : in_int n)
    by (specialize (Hfit (List.length (tensor_dims api tensor (world s))));
        rewrite firstn_all in Hfit; exact Hfit).
  unfold seq_bind at 1. unfold lift.
  rewrite vector_of_size_negative by (unfold in_int in Hint; lia).
  reflexivity.
Qed.

(** A call that reaches the output tensor ends in [read_output]. *)
Lemma processAudio_reaches_output this audioData length
    (s s2 : state W) outputTensor :
  reaches_output api this audioData length s s2 outputTensor ->
  processAudio api this audioData length s = read_output api outputTensor s2.
Proof.
  intros (i & s1 & Hi & Hnz & Hin & Hfill & Hinv & Hout & Hnull).
  rewrite processAudio_branches, Hi.
  destruct (Z.eqb_spec i 0); [contradiction|]. cbv zeta.
  destruct (Z.eqb_spec (TfLiteInterpreterGetInputTensor api i 0 (world s)) 0);
    [contradiction|].
  rewrite Hfill. unfold call in Hinv.
  destruct (TfLiteInterpreterInvoke api i (world s1)) as [status w2].
  injection Hinv as -> <-. cbn [fst snd status_is_ok negb world].
  cbn [world] in Hout. rewrite Hout.
  destruct (Z.eqb_spec outputTensor 0); [contradiction|]. reflexivity.
Qed.

(** C6, as amended: when a call reaches the output tensor, a result it
    returns has as many elements as the product of the tensor's dimensions,
    the rank and each size being read from the tensor through the API; and
    it does return such a result when the partial products fit in an [int]
    and the product is not negative.  The product is accumulated in an
    [int] (lines 209 to 212): outside that condition the multiplication
    overflows or the size is negative, and no such result is promised. *)
Theorem C6_result_length_is_dimension_product (this : MLProcessor) (audioData : list Z) (length : Z)
    (s s2 : state W) (outputTensor : Z) :
  reaches_output api this audioData length s s2 outputTensor ->
  let dims := tensor_dims api outputTensor (world s2) in
  (forall v s',
     processAudio api this audioData length s = Normal (v, s') ->
     Z.of_nat (List.length v) = element_count dims) /\
  (fits_int dims -> 0 <= element_count dims ->
   exists v,
     processAudio api this audioData length s = Normal (v, s2) /\
     Z.of_nat (List.length v) = element_count dims).
Proof.
  intros Hreach dims.
  rewrite (processAudio_reaches_output _ _ _ _ _ _ Hreach).
  split.
  - intros v s' H. apply read_output_sound in H as [_ H]. exact H.
  - intros Hfit Hpos. apply read_output_complete; assumption.
Qed.

(** C10, as amended: the size starts at 1, so when a call reaches an output
    tensor of rank 0 it returns a vector of length 1; and when the partial
    products of the dimensions fit in an [int], a call that reaches the
    output tensor either returns a vector with as many elements as the
    product, which is empty only if one of the dimensions is 0, or the
    product is negative and [result.resize] throws: it never returns an
    empty vector without a dimension equal to 0. *)
Theorem C10_empty_result_needs_a_zero_dimension (this : MLProcessor) (audioData : list Z) (length : Z)
    (s s2 : state W) (outputTensor : Z) :
  reaches_output api this audioData length s s2 outputTensor ->
  let dims := tensor_dims api outputTensor (world s2) in
  (TfLiteTensorNumDims api outputTensor (world s2) = 0 ->
   exists v,
     processAudio api this audioData length s = Normal (v, s2) /\
     List.length v = 1%nat) /\
  (fits_int dims ->
   (exists v,
      processAudio api this audioData length s = Normal (v, s2) /\
      Z.of_nat (List.length v) = element_count dims /\
      (v = [] -> 0 ∈ dims)) \/
   (element_count dims < 0 /\
    processAudio api this audioData length s = Throws length_error)).
Proof.
  intros Hreach dims.
  rewrite (processAudio_reaches_output _ _ _ _ _ _ Hreach).
  split.
  - intros Hrank.
    assert (Hdims : tensor_dims api outputTensor (world s2) = []).
    { unfold tensor_dims. rewrite Hrank. reflexivity. }
    destruct (read_output_complete outputTensor s2) as (v & Hv & Hlen).
    + rewrite Hdims. intros k. rewrite take_nil. exact in_int_1.
    + rewrite Hdims. cbn. lia.
    + exists v. split; [exact Hv|]. rewrite Hdims in Hlen. cbn in Hlen. lia.
  - intros Hfit.
    destruct (Z.lt_ge_cases (element_count dims) 0) as [Hneg|Hpos].
    + right. split; [exact Hneg|]. apply read_output_negative; assumption.
    + left.
      destruct (read_output_complete outputTensor s2 Hfit Hpos) as (v & Hv & Hlen).
      exists v. split; [exact Hv|]. split; [exact Hlen|].
      intros ->. apply element_count_zero. cbn in Hlen. fold dims in Hlen. lia.
Qed.

End Processor.

(** ** The bridge *)

Section Bridge.

Context {W jstring jshortArray : Type}.
Context (api : TfLiteApi W) (env : JNIEnv jstring jshortArray).

Lemma nativeProcessAudio_nonpositive (handle : Z) (audioData : jshortArray) (s : state W) :
  handle <> 0 ->
  GetArrayLength env audioData <= 0 ->
  nativeProcessAudio api env handle audioData s =
  Normal ([], logged s (error_line ANDROID_LOG_ERROR "Empty audio data array")).
Proof.
  intros Hh Hlen. unfold nativeProcessAudio.
  destruct (Z.eqb_spec handle 0); [contradiction|].
  destruct (Z.leb_spec (GetArrayLength env audioData) 0); [reflexivity | lia].
Qed.

(** C2 as the code has it: the test for an empty input is made by the
    bridge.  For a non-null handle and an array of length 0,
    [nativeProcessAudio] returns an empty array and logs a diagnostic; the
    library world and the heap are untouched, so nothing was preprocessed
    or written to a tensor. *)
Theorem C2_bridge_rejects_empty_input (handle : Z) (audioData : jshortArray) (s : state W) :
  handle <> 0 ->
  GetArrayLength env audioData = 0 ->
  nativeProcessAudio api env handle audioData s =
  Normal ([], {| world := world s;
                 log := log s ++ [error_line ANDROID_LOG_ERROR "Empty audio data array"];
                 heap := heap s |}).
Proof.
  intros Hh Hlen. apply nativeProcessAudio_nonpositive; [exact Hh | lia].
Qed.

(** C8 as the code has it: a negative length never reaches [processAudio]
    through the bridge, which treats it like a zero length.  For a non-null
    handle, an array reporting a negative length gets the answer of an
    array of length 0: an empty array and a logged diagnostic, the library
    world and the heap untouched. *)
Theorem C8_bridge_rejects_negative_length (handle : Z) (audioData empty : jshortArray) (s : state W) :
  handle <> 0 ->
  GetArrayLength env audioData < 0 ->
  GetArrayLength env empty = 0 ->
  nativeProcessAudio api env handle audioData s =
    nativeProcessAudio api env handle empty s /\
  nativeProcessAudio api env handle audioData s =
    Normal ([], {| world := world s;
                   log := log s ++ [error_line ANDROID_LOG_ERROR "Empty audio data array"];
                   heap := heap s |}).
Proof.
  intros Hh Hlen Hzero.
  rewrite !nativeProcessAudio_nonpositive by (assumption || lia).
  split; reflexivity.
Qed.

Lemma nativeClose_null (s : state W) :
  nativeClose api 0 s =
  Normal (tt, logged s (error_line ANDROID_LOG_ERROR "Attempted to close invalid processor handle")).
Proof. reflexivity. Qed.

Lemma nativeClose_live (handle : Z) (s : state W) m i o :
  object_at handle s =
    Some {| model := Pointer m; interpreter := Pointer i; options := Pointer o |} ->
  exists s',
    nativeClose api handle s = Normal (tt, s') /\
    object_at handle s' = None /\
    (forall other, other <> handle -> object_at other s' = object_at other s).
Proof.
  intros Hobj. unfold nativeClose, delete_MLProcessor.
  destruct handle as [|a|a]; try discriminate. cbn [negb Z.eqb].
  unfold seq_bind, LOGI, write_log. unfold object_at in *. cbn [heap].
  rewrite Hobj.
  destruct (MLProcessor_dtor_returns api m i o
              {| world := world s;
                 log := log s ++ [{| level := ANDROID_LOG_INFO; format := "Closing MLProcessor";
                                     arguments := [] |}];
                 heap := heap s |}) as [w ->].
  eexists. split; [reflexivity|]. cbn [heap]. split.
  - apply lookup_delete_eq.
  - intros [|b|b] Hne; try reflexivity.
    apply lookup_delete_ne. congruence.
Qed.

Lemma nativeClose_dangling (handle : Z) (s : state W) :
  handle <> 0 -> object_at handle s = None ->
  nativeClose api handle s = Undefined dangling_pointer.
Proof.
  intros Hh Hobj. unfold nativeClose, delete_MLProcessor.
  destruct (Z.eqb_spec handle 0); [contradiction|]. cbn [negb].
  unfold seq_bind, LOGI, write_log. unfold object_at in *. cbn [heap].
  destruct handle as [|a|a]; try reflexivity. rewrite Hobj. reflexivity.
Qed.

(** C7 as the code has it: [nativeClose] tests the handle against null
    only.  On the null handle it does nothing but log a diagnostic.  On a
    handle that designates a constructed processor it runs the destructor
    and frees the object: it returns normally, the handle no longer
    designates an object, and the other objects are kept. *)
Theorem C7_close_on_null_and_on_live_handle (handle : Z) (s : state W) (m i o : Z) :
  object_at handle s =
    Some {| model := Pointer m; interpreter := Pointer i; options := Pointer o |} ->
  nativeClose api 0 s =
    Normal (tt, {| world := world s;
                   log := log s ++
                     [error_line ANDROID_LOG_ERROR "Attempted to close invalid processor handle"];
                   heap := heap s |}) /\
  exists s',
    nativeClose api handle s = Normal (tt, s') /\
    object_at handle s' = None /\
    (forall other, other <> handle -> object_at other s' = object_at other s).
Proof.
  intros Hobj. split; [apply nativeClose_null|].
  eapply nativeClose_live. exact Hobj.
Qed.

End Bridge.

(** ** Runs on the test double *)

(** On the test double the constructor builds [stub_processor] and leaves
    the engine allocated. *)
Example stub_construction (dims : list Z) :
  MLProcessor_ctor stub_api uninitialized "model.tflite"
    (initial_state kTfLiteOk dims) =
  Normal (stub_processor,
          {| world := allocated_engine dims;
             log := [{| level := INFO;
                        format := "Model loaded successfully from %s";
                        arguments := [arg_string "model.tflite"] |}];
             heap := ∅ |}).
Proof. reflexivity. Qed.

Lemma C1_failed_load_leaves_members_unset_witness :
  exists s',
    MLProcessor_ctor stub_api uninitialized "/nonexistent"
      (initial_state kTfLiteOk [1; 2]) = Normal (load_failed, s') /\
    processAudio stub_api load_failed (ramp 512) 512 s' =
      Undefined indeterminate_read /\
    MLProcessor_dtor stub_api load_failed s' = Undefined indeterminate_read.
Proof.
  destruct (C1_failed_load_leaves_members_unset stub_api "/nonexistent"
              (initial_state kTfLiteOk [1; 2]))
    as (s' & Hctor & _ & _ & Hrun & Hdel); [reflexivity|].
  exists s'. split; [exact Hctor|]. split; [apply Hrun | apply Hdel].
Defined.

(** The same through the bridge: [nativeInit] on a path that does not load
    returns a handle, and both [nativeProcessAudio] and [nativeClose] on
    that handle use the unassigned members. *)
Example failed_load_through_the_bridge :
  let opened := nativeInit stub_api stub_env "/nonexistent"
                  (initial_state kTfLiteOk [1; 2]) in
  result_of opened = Normal 1 /\
  result_of (then_run opened
               (fun h => nativeProcessAudio stub_api stub_env h (ramp 512))) =
    Undefined indeterminate_read /\
  result_of (then_run opened (fun h => nativeClose stub_api h)) =
    Undefined indeterminate_read.
Proof. vm_compute. repeat split. Qed.

Lemma C3_short_window_is_overread_witness :
  processAudio stub_api stub_processor [1] 1 (ready_state [1; 2]) =
  Undefined out_of_bounds_read.
Proof.
  refine (proj2 (C3_short_window_is_overread stub_api stub_processor [1] 1
                   (ready_state [1; 2]) stub_interpreter
                   eq_refl _ _ eq_refl _ _)).
  - discriminate.
  - discriminate.
  - unfold MODEL_INPUT_LEN. lia.
  - cbn. lia.
Defined.

(** The same through the bridge, which lets any positive length pass. *)
Example short_window_through_the_bridge :
  let opened := nativeInit stub_api stub_env "model.tflite"
                  (initial_state kTfLiteOk [1; 2]) in
  result_of opened = Normal 1 /\
  result_of (then_run opened
               (fun h => nativeProcessAudio stub_api stub_env h [1])) =
    Undefined out_of_bounds_read.
Proof. vm_compute. repeat split. Qed.

Lemma C9_only_the_first_512_samples_count_witness :
  processAudio stub_api stub_processor (ramp 1024) 1024 (ready_state [2]) =
  processAudio stub_api stub_processor (ramp 512 ++ replicate 88 7) 600
    (ready_state [2]).
Proof.
  refine (proj2 (C9_only_the_first_512_samples_count stub_api stub_processor
                   (ready_state [2]) (ramp 1024) (ramp 512 ++ replicate 88 7)
                   1024 600 _ _ _ _ _)).
  - const_lia.
  - const_lia.
  - apply Z.leb_le. vm_compute. reflexivity.
  - apply Z.leb_le. vm_compute. reflexivity.
  - vm_compute. reflexivity.
Defined.

(** The test double reaches its output tensor on a full window. *)
Lemma stub_reaches_output (dims : list Z) :
  reaches_output stub_api stub_processor (ramp 512) 512
    (ready_state dims) (stub_invoked dims) stub_output_tensor.
Proof.
  exists stub_interpreter, (stub_filled dims).
  split; [reflexivity|]. split; [discriminate|]. split; [discriminate|].
  split; [|split; [|split]].
  - vm_compute. reflexivity.
  - vm_compute. reflexivity.
  - reflexivity.
  - discriminate.
Defined.

Lemma C6_result_length_is_dimension_product_witness :
  exists v,
    processAudio stub_api stub_processor (ramp 512) 512 (ready_state [2; 5]) =
      Normal (v, stub_invoked [2; 5]) /\
    Z.of_nat (List.length v) = 10.
Proof.
  refine (proj2 (C6_result_length_is_dimension_product stub_api stub_processor
                   (ramp 512) 512 (ready_state [2; 5]) (stub_invoked [2; 5])
                   stub_output_tensor (stub_reaches_output [2; 5])) _ _).
  - intros [|[|[|k]]]; vm_compute; split; discriminate.
  - vm_compute. discriminate.
Defined.

Lemma C10_empty_result_needs_a_zero_dimension_witness :
  (exists v,
     processAudio stub_api stub_processor (ramp 512) 512 (ready_state []) =
       Normal (v, stub_invoked []) /\
     List.length v = 1%nat) /\
  (processAudio stub_api stub_processor (ramp 512) 512 (ready_state [3; 0]) =
     Normal ([], stub_invoked [3; 0]) /\
   0 ∈ [3; 0]).
Proof.
  split.
  - exact (proj1 (C10_empty_result_needs_a_zero_dimension stub_api stub_processor
                    (ramp 512) 512 (ready_state []) (stub_invoked [])
                    stub_output_tensor (stub_reaches_output [])) eq_refl).
  - assert (Hrun : processAudio stub_api stub_processor (ramp 512) 512
                     (ready_state [3; 0]) = Normal ([], stub_invoked [3; 0]))
      by (vm_compute; reflexivity).
    split; [exact Hrun|].
    assert (Hfit : fits_int (tensor_dims stub_api stub_output_tensor
                               (world (stub_invoked [3; 0]))))
      by (intros [|[|[|k]]]; vm_compute; split; discriminate).
    destruct (proj2 (C10_empty_result_needs_a_zero_dimension stub_api stub_processor
                       (ramp 512) 512 (ready_state [3; 0]) (stub_invoked [3; 0])
                       stub_output_tensor (stub_reaches_output [3; 0])) Hfit)
      as [(v & Hv & _ & Hzero)|[Hneg _]].
    + rewrite Hrun in Hv. apply (f_equal result_of) in Hv. cbn [result_of] in Hv.
      injection Hv as Hv. exact (Hzero (eq_sym Hv)).
    + vm_compute in Hneg. discriminate.
Defined.

(** C6 as stated fails: with output dimensions 65536 x 65536 the call
    reaches the output tensor, and the product 2^32 of the dimensions
    leaves [int] at line 211; no vector of that length is returned.  With
    dimensions 2 x -3 the product is -6, which is no length: [result.resize]
    throws. *)
Lemma C6_counterexample :
  let run dims :=
    processAudio stub_api stub_processor (ramp 512) 512 (ready_state dims) in
  reaches_output stub_api stub_processor (ramp 512) 512
    (ready_state [65536; 65536]) (stub_invoked [65536; 65536]) stub_output_tensor /\
  element_count [65536; 65536] = 2 ^ 32 /\
  result_of (run [65536; 65536]) = Undefined signed_overflow /\
  (forall v, result_of (run [65536; 65536]) <> Normal v) /\
  reaches_output stub_api stub_processor (ramp 512) 512
    (ready_state [2; -3]) (stub_invoked [2; -3]) stub_output_tensor /\
  element_count [2; -3] = -6 /\
  result_of (run [2; -3]) = Throws length_error /\
  (forall v, result_of (run [2; -3]) <> Normal v).
Proof.
  cbv zeta.
  assert (Hbig : result_of (processAudio stub_api stub_processor (ramp 512) 512
                              (ready_state [65536; 65536])) =
                 Undefined signed_overflow) by (vm_compute; reflexivity).
  assert (Hneg : result_of (processAudio stub_api stub_processor (ramp 512) 512
                              (ready_state [2; -3])) =
                 Throws length_error) by (vm_compute; reflexivity).
  split; [apply stub_reaches_output|].
  split; [reflexivity|].
  split; [exact Hbig|].
  split; [intros v; rewrite Hbig; discriminate|].
  split; [apply stub_reaches_output|].
  split; [reflexivity|].
  split; [exact Hneg|].
  intros v. rewrite Hneg. discriminate.
Qed.

(** C10 as stated fails: with output dimensions 65536 x 65536 the call takes
    no failure branch and reaches the output tensor, no dimension is 0, and
    the product overflows [int]: what the call returns is not defined, so
    an empty vector is not excluded. *)
Lemma C10_counterexample :
  let run :=
    processAudio stub_api stub_processor (ramp 512) 512
      (ready_state [65536; 65536]) in
  reaches_output stub_api stub_processor (ramp 512) 512
    (ready_state [65536; 65536]) (stub_invoked [65536; 65536]) stub_output_tensor /\
  tensor_dims stub_api stub_output_tensor (world (stub_invoked [65536; 65536])) =
    [65536; 65536] /\
  (0 ∉ [65536; 65536]) /\
  result_of run = Undefined signed_overflow /\
  (forall v, result_of run <> Normal v).
Proof.
  cbv zeta.
  assert (Hbig : result_of (processAudio stub_api stub_processor (ramp 512) 512
                              (ready_state [65536; 65536])) =
                 Undefined signed_overflow) by (vm_compute; reflexivity).
  split; [apply stub_reaches_output|].
  split; [vm_compute; reflexivity|].
  split; [rewrite !elem_of_cons, elem_of_nil; intros [H|[H|[]]]; discriminate|].
  split; [exact Hbig|].
  intros v. rewrite Hbig. discriminate.
Qed.

(** C4: on the test double with a failing tensor allocation the constructor
    only logs the failure (and then the success message): the interpreter
    member stays non-null and nothing records that the tensors are not
    allocated.  A later [processAudio] passes its null test, writes the
    normalised buffer into the input tensor and calls invoke; that the
    result is empty here is the engine's own refusal. *)
Theorem C4_allocation_failure_is_not_recorded :
  let built := MLProcessor_ctor stub_api uninitialized "model.tflite"
                 (initial_state kTfLiteError [1; 2]) in
  let run := then_run built
               (fun this => processAudio stub_api this (ramp 512) 512) in
  result_of built = Normal stub_processor /\
  option_map (fun s => (eng_allocated (world s), map format (log s)))
    (final_state built) =
    Some (false, ["Failed to allocate tensors";
                  "Model loaded successfully from %s"]) /\
  result_of run = Normal [] /\
  option_map (fun s => (eng_allocated (world s), eng_stores (world s),
                        eng_invokes (world s)))
    (final_state run) = Some (false, 1%nat, 1%nat).
Proof. vm_compute. repeat split. Qed.

Lemma C2_bridge_rejects_empty_input_witness :
  nativeProcessAudio stub_api stub_env 1 [] (ready_state [1; 2]) =
  Normal ([], {| world := allocated_engine [1; 2];
                 log := [error_line ANDROID_LOG_ERROR "Empty audio data array"];
                 heap := ∅ |}).
Proof.
  refine (C2_bridge_rejects_empty_input stub_api stub_env 1 []
            (ready_state [1; 2]) _ _).
  - lia.
  - reflexivity.
Defined.

(** C2 as stated fails: on a processor the constructor has fully set up,
    [processAudio] with length 0 makes no test of the length; the copy of
    [MODEL_INPUT_LEN] floats then reads from an empty buffer. *)
Lemma C2_counterexample :
  let built := MLProcessor_ctor stub_api uninitialized "model.tflite"
                 (initial_state kTfLiteOk [1; 2]) in
  let run := then_run built (fun this => processAudio stub_api this [] 0) in
  result_of built = Normal stub_processor /\
  result_of run = Undefined out_of_bounds_read /\
  result_of run <> Normal [].
Proof. vm_compute. repeat split. discriminate. Qed.

Lemma C8_bridge_rejects_negative_length_witness :
  nativeProcessAudio stub_api length_env 1 (-1) (ready_state [1; 2]) =
  Normal ([], {| world := allocated_engine [1; 2];
                 log := [error_line ANDROID_LOG_ERROR "Empty audio data array"];
                 heap := ∅ |}).
Proof.
  refine (proj2 (C8_bridge_rejects_negative_length stub_api length_env 1 (-1) 0
                   (ready_state [1; 2]) _ _ _)).
  - lia.
  - cbn. lia.
  - reflexivity.
Defined.

(** C8 as stated fails: on a processor the constructor has fully set up,
    [processAudio] with length -1 throws [std::length_error] out of the
    construction of the buffer. *)
Lemma C8_counterexample :
  let built := MLProcessor_ctor stub_api uninitialized "model.tflite"
                 (initial_state kTfLiteOk [1; 2]) in
  let run := then_run built (fun this => processAudio stub_api this [] (-1)) in
  result_of built = Normal stub_processor /\
  result_of run = Throws length_error /\
  result_of run <> Normal [].
Proof. vm_compute. repeat split. discriminate. Qed.

Lemma C7_close_on_null_and_on_live_handle_witness :
  exists s',
    nativeClose stub_api 1 live_state = Normal (tt, s') /\
    object_at 1 s' = None.
Proof.
  destruct (C7_close_on_null_and_on_live_handle stub_api 1 live_state
              stub_model stub_interpreter stub_options)
    as (_ & s' & Hclose & Hgone & _); [vm_compute; reflexivity|].
  exists s'. split; assumption.
Defined.

(** C7 as stated fails: a second [nativeClose] on the handle that
    [nativeInit] returned deletes an object that is no longer live. *)
Lemma C7_counterexample :
  let opened := nativeInit stub_api stub_env "model.tflite"
                  (initial_state kTfLiteOk [1; 2]) in
  let closed := then_run opened (fun h => nativeClose stub_api h) in
  let closed_twice :=
    then_run opened (fun h => nativeClose stub_api h ;;; nativeClose stub_api h) in
  result_of opened = Normal 1 /\
  result_of closed = Normal tt /\
  result_of closed_twice = Undefined dangling_pointer /\
  result_of closed_twice <> Normal tt.
Proof. vm_compute. repeat split. discriminate. Qed.

(** * Further properties of the code *)

(** ** What the processor leaves alone *)

Section Frames.

Context {W : Type} (api : TfLiteApi W).

(** The constructor touches neither the heap nor the lines already
    logged. *)
Lemma MLProcessor_ctor_frame this modelPath (s s' : state W) this' :
  MLProcessor_ctor api this modelPath s = Normal (this', s') ->
  heap s' = heap s /\ exists lines, log s' = log s ++ lines.
Proof.
  unfold MLProcessor_ctor. unfold_stmt.
  destruct (TfLiteModelCreateFromFile api modelPath (world s)) as [m w1].
  destruct (m =? 0).
  { intros H. injection H as <- <-. cbn. eauto. }
  cbn [world log heap].
  destruct (TfLiteInterpreterOptionsCreate api w1) as [o w2].
  cbn [world log heap].
  destruct (TfLiteInterpreterCreate api m o _) as [i w3].
  destruct (i =? 0).
  { intros H. injection H as <- <-. cbn. eauto. }
  cbn [world log heap].
  destruct (TfLiteInterpreterAllocateTensors api i w3) as [status w4].
  destruct (negb (status_is_ok status)); cbn [world log heap];
    intros H; injection H as <- <-; cbn; [rewrite <- app_assoc|]; eauto.
Qed.

Lemma copy_from_buffer_frame tensor buffer size (s s' : state W) status :
  TfLiteTensorCopyFromBuffer api tensor buffer size s = Normal (status, s') ->
  heap s' = heap s /\ log s' = log s.
Proof.
  unfold TfLiteTensorCopyFromBuffer. unfold_stmt.
  destruct (negb _).
  { intros H. injection H as <- <-. auto. }
  destruct (read_floats buffer size); try discriminate.
  intros H. injection H as <- <-. auto.
Qed.

(** Writing the input adds the amplitude line and nothing else to the
    log. *)
Lemma fill_input_frame tensor audioData length (s s1 : state W) u :
  fill_input api tensor audioData length s = Normal (u, s1) ->
  heap s1 = heap s /\
  exists maxAmplitude, log s1 = log s ++ [amplitude_line maxAmplitude].
Proof.
  unfold fill_input. unfold seq_bind at 1. unfold lift.
  destruct (normalize audioData length) as [[floatData maxAmplitude]| |];
    try discriminate.
  unfold seq_bind at 1. unfold LOG_INFO, write_log.
  unfold seq_bind, ret.
  destruct (TfLiteTensorCopyFromBuffer _ _ _ _ _) as [[status s2]| |] eqn:E;
    try discriminate.
  apply copy_from_buffer_frame in E as [Hh Hl]. cbn [heap log] in *.
  intros H. inversion H. subst s2. split; [exact Hh|].
  exists maxAmplitude. exact Hl.
Qed.

(** [processAudio] splits into its guards, the writing of the input, and
    [invoke_and_extract]. *)
Lemma processAudio_split this audioData length i (s : state W) :
  interpreter this = Pointer i -> i <> 0 ->
  TfLiteInterpreterGetInputTensor api i 0 (world s) <> 0 ->
  processAudio api this audioData length s =
  match fill_input api (TfLiteInterpreterGetInputTensor api i 0 (world s))
          audioData length s with
  | Normal (_, s1) => invoke_and_extract api i s1
  | Throws e => Throws e
  | Undefined u => Undefined u
  end.
Proof.
  intros Hi Hnz Ht. unfold processAudio. unfold seq_bind at 1.
  rewrite Hi. cbn [lift read_member].
  destruct (Z.eqb_spec i 0); [contradiction|].
  unfold seq_bind at 1. cbn [query].
  destruct (Z.eqb_spec (TfLiteInterpreterGetInputTensor api i 0 (world s)) 0);
    [contradiction|].
  unfold seq_bind at 1. reflexivity.
Qed.

End Frames.

(** ** Diagnostics and exceptions of processAudio *)

Section Discipline.

Context {W : Type} (api : TfLiteApi W).

Lemma status_is_ok_true status : status_is_ok status = true -> status = kTfLiteOk.
Proof. destruct status; (reflexivity || discriminate). Qed.

(** X5: whenever [processAudio] returns, it has left the heap alone and has
    only added lines to the log.  Either it took a failure branch: the
    result is empty and the last line added is an error diagnostic, the
    lines before it being informational; or it reached the output tensor and
    the only line added is the amplitude line, so a successful call logs no
    error and a failed one never goes unlogged. *)
Theorem processAudio_logs_an_error_exactly_on_failure
    (this : MLProcessor) (audioData : list Z) (length : Z)
    (s s' : state W) (v : list float) :
  processAudio api this audioData length s = Normal (v, s') ->
  heap s' = heap s /\
  ((exists info msg,
      log s' = log s ++ info ++ [error_line ERROR msg] /\
      Forall (fun line => level line = INFO) info /\ v = []) \/
   (exists maxAmplitude outputTensor,
      log s' = log s ++ [amplitude_line maxAmplitude] /\
      reaches_output api this audioData length s s' outputTensor)).
Proof.
  rewrite processAudio_branches.
  destruct (interpreter this) as [|i] eqn:Hi; [discriminate|].
  destruct (Z.eqb_spec i 0) as [|Hnz].
  { intros H. injection H as <- <-. split; [reflexivity|]. left.
    exists [], "Interpreter not initialized". cbn. auto. }
  cbv zeta.
  destruct (Z.eqb_spec (TfLiteInterpreterGetInputTensor api i 0 (world s)) 0)
    as [|Ht].
  { intros H. injection H as <- <-. split; [reflexivity|]. left.
    exists [], "Failed to get input tensor". cbn. auto. }
  destruct (fill_input _ _ _ _ _) as [[[] s1]| |] eqn:Hfill; try discriminate.
  destruct (fill_input_frame api _ _ _ _ _ _ Hfill) as (Hheap & mx & Hlog).
  destruct (TfLiteInterpreterInvoke api i (world s1)) as [status w2] eqn:Hinv.
  cbn [fst snd].
  destruct (status_is_ok status) eqn:Hok; cbn [negb].
  2:{ intros H. injection H as <- <-. split; [exact Hheap|]. left.
      exists [amplitude_line mx], "Failed to invoke interpreter".
      cbn [logged log]. rewrite Hlog, <- app_assoc. repeat split.
      constructor; [reflexivity | constructor]. }
  cbn [world].
  destruct (Z.eqb_spec (TfLiteInterpreterGetOutputTensor api i 0 w2) 0)
    as [|Hout].
  { intros H. injection H as <- <-. split; [exact Hheap|]. left.
    exists [amplitude_line mx], "Failed to get output tensor".
    cbn [logged log]. rewrite Hlog, <- app_assoc. repeat split.
    constructor; [reflexivity | constructor]. }
  intros H. apply read_output_sound in H as [-> _].
  split; [exact Hheap|]. right.
  exists mx, (TfLiteInterpreterGetOutputTensor api i 0 w2).
  split; [exact Hlog|].
  exists i, s1. repeat split; try assumption.
  unfold call. rewrite Hinv.
  rewrite (status_is_ok_true _ Hok). reflexivity.
Qed.

(** X6: [processAudio] has no handler around its two vector operations, so
    their [std::length_error] leaves the function.  A negative length that
    gets past the two null tests always throws: the buffer cannot be
    constructed (line 154).  So does a call that reaches an output tensor
    whose dimensions multiply, within [int], to a negative size: the result
    cannot be resized (line 218), and by then the interpreter has run. *)
Theorem processAudio_lets_length_error_escape
    (this : MLProcessor) (audioData : list Z) (length : Z) (s : state W) :
  (forall i,
     interpreter this = Pointer i -> i <> 0 ->
     TfLiteInterpreterGetInputTensor api i 0 (world s) <> 0 ->
     INT_MIN <= length < 0 ->
     processAudio api this audioData length s = Throws length_error) /\
  (forall s2 outputTensor,
     reaches_output api this audioData length s s2 outputTensor ->
     fits_int (tensor_dims api outputTensor (world s2)) ->
     element_count (tensor_dims api outputTensor (world s2)) < 0 ->
     processAudio api this audioData length s = Throws length_error).
Proof.
  split.
  - intros i Hi Hnz Ht Hneg.
    rewrite (processAudio_split api this _ _ i s Hi Hnz Ht).
    unfold fill_input. unfold seq_bind at 1. unfold lift, normalize.
    rewrite vector_of_size_negative by exact Hneg. reflexivity.
  - intros s2 outputTensor Hreach Hfit Hneg.
    rewrite (processAudio_reaches_output api _ _ _ _ _ _ Hreach).
    apply read_output_negative; assumption.
Qed.

End Discipline.

(** ** What a call depends on *)

Section World.

Context {W : Type} (api : TfLiteApi W).

Lemma read_output_world tensor (s s' : state W) :
  world s = world s' ->
  observable (read_output api tensor s) = observable (read_output api tensor s').
Proof.
  intros Hw. unfold read_output, output_size, TfLiteTensorCopyToBuffer.
  unfold_stmt. rewrite Hw.
  destruct (for_each _ _ _) as [n| |]; [|reflexivity..].
  destruct (vector_of_size n) as [result| |]; [|reflexivity..].
  rewrite Hw.
  destruct (negb _); [cbn; rewrite Hw; reflexivity|].
  destruct (_ <? _); [reflexivity|].
  cbn. rewrite Hw. reflexivity.
Qed.

Lemma invoke_and_extract_world i (s s' : state W) :
  world s = world s' ->
  observable (invoke_and_extract api i s) =
  observable (invoke_and_extract api i s').
Proof.
  intros Hw. unfold invoke_and_extract.
  unfold seq_bind, call, query, ret, LOG_ERROR, write_log.
  rewrite Hw. destruct (TfLiteInterpreterInvoke api i (world s')) as [status w2].
  destruct (negb (status_is_ok status)); [reflexivity|].
  cbn [world]. destruct (_ =? 0); [reflexivity|].
  apply read_output_world. reflexivity.
Qed.

Lemma copy_from_buffer_world tensor buffer size (s s' : state W) :
  world s = world s' ->
  observable (TfLiteTensorCopyFromBuffer api tensor buffer size s) =
  observable (TfLiteTensorCopyFromBuffer api tensor buffer size s').
Proof.
  intros Hw. unfold TfLiteTensorCopyFromBuffer. unfold_stmt. rewrite Hw.
  destruct (negb _); [cbn; rewrite Hw; reflexivity|].
  destruct (read_floats buffer size); [|reflexivity..].
  cbn. rewrite Hw. reflexivity.
Qed.

(** Writing the input, once the preprocessor has returned. *)
Lemma fill_input_normalized tensor audioData length (s : state W) b m :
  normalize audioData length = Normal (b, m) ->
  fill_input api tensor audioData length s =
  match TfLiteTensorCopyFromBuffer api tensor b (MODEL_INPUT_LEN * sizeof_float)
          (logged s (amplitude_line m)) with
  | Normal (_, s1) => Normal (tt, s1)
  | Throws e => Throws e
  | Undefined u => Undefined u
  end.
Proof.
  intros Hn. unfold fill_input, seq_bind, lift, LOG_INFO, write_log, ret.
  rewrite Hn. reflexivity.
Qed.

(** Two windows whose buffers the copy into the input tensor cannot tell
    apart lead to the same result and the same library world. *)
Lemma processAudio_observable this a1 l1 a2 l2 (s : state W) b1 m1 b2 m2 :
  normalize a1 l1 = Normal (b1, m1) ->
  normalize a2 l2 = Normal (b2, m2) ->
  (forall i s1 s2,
     interpreter this = Pointer i ->
     world s1 = world s -> world s2 = world s ->
     observable (TfLiteTensorCopyFromBuffer api
                   (TfLiteInterpreterGetInputTensor api i 0 (world s)) b1
                   (MODEL_INPUT_LEN * sizeof_float) s1) =
     observable (TfLiteTensorCopyFromBuffer api
                   (TfLiteInterpreterGetInputTensor api i 0 (world s)) b2
                   (MODEL_INPUT_LEN * sizeof_float) s2)) ->
  observable (processAudio api this a1 l1 s) =
  observable (processAudio api this a2 l2 s).
Proof.
  intros Hn1 Hn2 Hcopy.
  destruct (interpreter this) as [|i] eqn:Hi.
  { unfold processAudio, seq_bind, lift. rewrite Hi. reflexivity. }
  destruct (Z.eq_dec i 0) as [->|Hnz].
  { unfold processAudio. unfold seq_bind at 1 3. rewrite Hi. reflexivity. }
  destruct (Z.eq_dec (TfLiteInterpreterGetInputTensor api i 0 (world s)) 0)
    as [Ht|Ht].
  { rewrite !processAudio_branches, Hi.
    destruct (Z.eqb_spec i 0); [contradiction|]. cbv zeta.
    rewrite Ht. reflexivity. }
  rewrite !(processAudio_split api this _ _ i s Hi Hnz Ht).
  rewrite (fill_input_normalized _ _ _ _ _ _ Hn1).
  rewrite (fill_input_normalized _ _ _ _ _ _ Hn2).
  specialize (Hcopy i (logged s (amplitude_line m1))
                (logged s (amplitude_line m2)) eq_refl eq_refl eq_refl).
  destruct (TfLiteTensorCopyFromBuffer api _ b1 _ _) as [[st1 s1]| |];
    destruct (TfLiteTensorCopyFromBuffer api _ b2 _ _) as [[st2 s2]| |];
    cbn in Hcopy; try discriminate; try (rewrite Hcopy; reflexivity).
  - apply invoke_and_extract_world. congruence.
  - congruence.
  - congruence.
Qed.

End World.

(** ** Partial construction and a mismatched input tensor *)

Section Edges.

Context {W : Type} (api : TfLiteApi W).

Lemma copy_from_buffer_mismatch tensor buffer size (s : state W) :
  TfLiteTensorByteSize api tensor (world s) <> size ->
  TfLiteTensorCopyFromBuffer api tensor buffer size s =
  Normal (kTfLiteApplicationError, s).
Proof.
  intros Hne. unfold TfLiteTensorCopyFromBuffer. unfold_stmt.
  destruct (Z.eqb_spec (TfLiteTensorByteSize api tensor (world s)) size);
    [contradiction | reflexivity].
Qed.

(** What [invoke_and_extract] leaves of the library world is what invoke
    left: reading the output tensor changes nothing. *)
Lemma invoke_and_extract_invokes i (s s' : state W) v :
  invoke_and_extract api i s = Normal (v, s') ->
  world s' = snd (TfLiteInterpreterInvoke api i (world s)).
Proof.
  unfold invoke_and_extract. unfold seq_bind at 1. unfold call.
  destruct (TfLiteInterpreterInvoke api i (world s)) as [status w2].
  cbn [snd].
  destruct (negb (status_is_ok status)).
  { unfold seq_bind, LOG_ERROR, write_log, ret. cbn [world log heap].
    intros H. injection H as <- <-. reflexivity. }
  unfold seq_bind at 1. unfold query. cbn [world].
  destruct (_ =? 0).
  { unfold seq_bind, LOG_ERROR, write_log, ret. cbn [world log heap].
    intros H. injection H as <- <-. reflexivity. }
  intros H. apply read_output_sound in H as [-> _]. reflexivity.
Qed.

(** X7: the status of the copy into the input tensor is never looked at.  On
    a processor with an interpreter and an input tensor that does not hold
    exactly [MODEL_INPUT_LEN] floats, the copy is refused and the tensor is
    not written: writing the input only adds the amplitude line.  The call
    goes on all the same: it is the invoke of the interpreter and the
    reading of the output, run on the library world as it was found, and
    when it returns, the world it leaves is the one invoke made of that
    world.  The result and the library world are then the same for every
    window: the audio does not reach the engine. *)
Theorem processAudio_ignores_the_audio_on_a_size_mismatch
    (this : MLProcessor) (i : Z) (a1 a2 : list Z) (l1 l2 : Z) (s : state W) :
  interpreter this = Pointer i -> i <> 0 ->
  TfLiteInterpreterGetInputTensor api i 0 (world s) <> 0 ->
  TfLiteTensorByteSize api (TfLiteInterpreterGetInputTensor api i 0 (world s))
    (world s) <> MODEL_INPUT_LEN * sizeof_float ->
  0 <= l1 <= INT_MAX -> l1 <= Z.of_nat (List.length a1) ->
  0 <= l2 <= INT_MAX -> l2 <= Z.of_nat (List.length a2) ->
  fill_input api (TfLiteInterpreterGetInputTensor api i 0 (world s)) a1 l1 s =
    Normal (tt, logged s (amplitude_line (inject_Z (peak (consumed a1 l1))))) /\
  processAudio api this a1 l1 s =
    invoke_and_extract api i
      (logged s (amplitude_line (inject_Z (peak (consumed a1 l1))))) /\
  (forall v s',
     processAudio api this a1 l1 s = Normal (v, s') ->
     world s' = snd (TfLiteInterpreterInvoke api i (world s))) /\
  observable (processAudio api this a1 l1 s) =
  observable (processAudio api this a2 l2 s).
Proof.
  intros Hi Hnz Ht Hne H1 Hp1 H2 Hp2.
  assert (Hfill :
    fill_input api (TfLiteInterpreterGetInputTensor api i 0 (world s)) a1 l1 s =
    Normal (tt, logged s (amplitude_line (inject_Z (peak (consumed a1 l1)))))).
  { rewrite (fill_input_normalized api _ _ _ _ _ _
               (normalize_correct a1 l1 H1 Hp1)).
    rewrite copy_from_buffer_mismatch by exact Hne. reflexivity. }
  assert (Hrun :
    processAudio api this a1 l1 s =
    invoke_and_extract api i
      (logged s (amplitude_line (inject_Z (peak (consumed a1 l1)))))).
  { rewrite (processAudio_split api this _ _ i s Hi Hnz Ht), Hfill.
    reflexivity. }
  split; [exact Hfill|]. split; [exact Hrun|]. split.
  - intros v s' H. rewrite Hrun in H.
    apply invoke_and_extract_invokes in H. exact H.
  - apply (processAudio_observable api this a1 l1 a2 l2 s _ _ _ _
             (normalize_correct a1 l1 H1 Hp1) (normalize_correct a2 l2 H2 Hp2)).
    intros j s1 s2 Hj Hw1 Hw2.
    assert (j = i) by congruence. subst j.
    rewrite !copy_from_buffer_mismatch by (rewrite ?Hw1, ?Hw2; exact Hne).
    cbn. congruence.
Qed.

Lemma processAudio_null_interpreter this audioData length (s : state W) :
  interpreter this = Pointer 0 ->
  processAudio api this audioData length s =
  Normal ([], logged s (error_line ERROR "Interpreter not initialized")).
Proof. intros Hi. rewrite processAudio_branches, Hi. reflexivity. Qed.

(** Any number of calls on a processor without interpreter: every result
    is empty, one diagnostic is logged per call, nothing else changes. *)
Lemma run_all_null_interpreter this (inputs : list (list Z * Z)) (s : state W) :
  interpreter this = Pointer 0 ->
  run_all (map (fun input => processAudio api this (fst input) (snd input)) inputs) s =
  Normal (map (fun _ => []) inputs,
          {| world := world s;
             log := log s ++ map (fun _ => error_line ERROR "Interpreter not initialized")
                               inputs;
             heap := heap s |}).
Proof.
  intros Hi. revert s. induction inputs as [|input inputs IH]; intros s.
  - cbn. unfold ret. rewrite app_nil_r. destruct s; reflexivity.
  - cbn [map run_all]. unfold seq_bind at 1.
    rewrite (processAudio_null_interpreter _ _ _ _ Hi).
    unfold seq_bind at 1. rewrite IH. unfold ret.
    cbn [logged world log heap]. rewrite <- app_assoc. reflexivity.
Qed.

(** X4: when the model loads but no interpreter can be created, the
    constructor stops there: the tensors are never allocated and all three
    members are assigned, [interpreter] being null.  Every later
    [processAudio], whatever its arguments and however many times, returns
    an empty vector and only logs; and the destructor returns normally,
    releasing the options (if any) and then the model, and never an
    interpreter. *)
Theorem failed_interpreter_creation_is_handled
    (modelPath : string) (s : state W) (m o : Z) (w1 w2 w3 : W) :
  TfLiteModelCreateFromFile api modelPath (world s) = (m, w1) -> m <> 0 ->
  TfLiteInterpreterOptionsCreate api w1 = (o, w2) ->
  TfLiteInterpreterCreate api m o
    (TfLiteInterpreterOptionsSetNumThreads api o 2 w2) = (0, w3) ->
  let this := {| model := Pointer m; interpreter := Pointer 0;
                 options := Pointer o |} in
  exists s1,
    MLProcessor_ctor api uninitialized modelPath s = Normal (this, s1) /\
    world s1 = w3 /\
    (forall inputs : list (list Z * Z),
     exists s2,
       run_all (map (fun input => processAudio api this (fst input) (snd input))
                    inputs) s1 =
         Normal (map (fun _ => []) inputs, s2) /\
       world s2 = w3 /\ heap s2 = heap s /\
       exists s3,
         MLProcessor_dtor api this s2 = Normal (tt, s3) /\
         world s3 =
           TfLiteModelDelete api m
             (if o =? 0 then w3 else TfLiteInterpreterOptionsDelete api o w3)).
Proof.
  intros Hm Hmz Ho Hi this.
  eexists. split; [|split].
  - unfold MLProcessor_ctor. unfold_stmt.
    rewrite Hm. destruct (Z.eqb_spec m 0); [contradiction|]. cbn [world log heap].
    rewrite Ho. cbn [world log heap]. rewrite Hi. cbn [Z.eqb]. reflexivity.
  - reflexivity.
  - intros inputs. eexists. split; [|split; [|split]].
    + apply run_all_null_interpreter. reflexivity.
    + reflexivity.
    + reflexivity.
    + unfold MLProcessor_dtor. unfold_stmt. cbn [this read_member interpreter
        options model Z.eqb negb world log heap].
      destruct (Z.eqb_spec m 0); [contradiction|]. cbn [negb].
      destruct (o =? 0); cbn [negb world log heap]; eexists; split; reflexivity.
Qed.

End Edges.

(** ** Gain and polarity *)

Lemma round_nearest_even_scale k n d :
  0 < k -> 0 < d ->
  round_nearest_even (k * n) (k * d) = round_nearest_even n d.
Proof.
  intros Hk Hd. unfold round_nearest_even.
  rewrite Z.div_mul_cancel_l, Z.mul_mod_distr_l by lia.
  replace (2 * (k * (n mod d))) with (k * (2 * (n mod d))) by lia.
  rewrite <- Zmult_compare_compat_l by lia. reflexivity.
Qed.

Lemma ratio_at_least_pow2_scale k n d e :
  0 < k -> ratio_at_least_pow2 (k * n) (k * d) e <-> ratio_at_least_pow2 n d e.
Proof.
  intros Hk. unfold ratio_at_least_pow2.
  rewrite <- !Z.mul_assoc. symmetry. apply Z.mul_le_mono_pos_l. exact Hk.
Qed.

Lemma ratio_at_least_pow2_pred n d e :
  0 < n -> 0 < d ->
  ratio_at_least_pow2 n d (e + 1) -> ratio_at_least_pow2 n d e.
Proof.
  intros Hn Hd. unfold ratio_at_least_pow2.
  destruct (Z.le_gt_cases 0 e) as [He|He].
  - rewrite (Z.max_r 0 (e + 1)), (Z.max_l 0 (- (e + 1))) by lia.
    rewrite (Z.max_r 0 e), (Z.max_l 0 (- e)) by lia.
    rewrite Z.pow_add_r by lia.
    assert (0 < 2 ^ e) by (apply Z.pow_pos_nonneg; lia). nia.
  - rewrite (Z.max_l 0 (e + 1)), (Z.max_r 0 (- (e + 1))) by lia.
    rewrite (Z.max_l 0 e), (Z.max_r 0 (- e)) by lia.
    replace (- e) with (- (e + 1) + 1) by lia.
    rewrite Z.pow_add_r by lia.
    assert (0 < 2 ^ (- (e + 1))) by (apply Z.pow_pos_nonneg; lia). nia.
Qed.

Lemma ratio_at_least_pow2_antitone n d e1 e2 :
  0 < n -> 0 < d -> e1 <= e2 ->
  ratio_at_least_pow2 n d e2 -> ratio_at_least_pow2 n d e1.
Proof.
  intros Hn Hd Hle. replace e2 with (e1 + Z.of_nat (Z.to_nat (e2 - e1))) by lia.
  induction (Z.to_nat (e2 - e1)) as [|j IH].
  - rewrite Z.add_0_r. auto.
  - intros H. apply IH. apply ratio_at_least_pow2_pred; try assumption.
    replace (e1 + Z.of_nat j + 1) with (e1 + Z.of_nat (S j)) by lia. exact H.
Qed.

(** [floor_log2_ratio n d] is the largest [e] with [2^e <= n / d]. *)
Lemma floor_log2_ratio_largest n d :
  0 < n -> 0 < d ->
  ratio_at_least_pow2 n d (floor_log2_ratio n d) /\
  ~ ratio_at_least_pow2 n d (floor_log2_ratio n d + 1).
Proof.
  intros Hn Hd. pose proof (floor_log2_ratio_spec n d Hn Hd) as Hs.
  cbv zeta in Hs. set (e := floor_log2_ratio n d) in *.
  destruct Hs as [Hlo Hhi]. split; [exact Hlo|].
  unfold ratio_at_least_pow2.
  destruct (Z.le_gt_cases 0 e) as [He|He].
  - rewrite (Z.max_r 0 (e + 1)), (Z.max_l 0 (- (e + 1))) by lia.
    rewrite (Z.max_r 0 e), (Z.max_l 0 (- e)) in Hhi by lia.
    rewrite Z.pow_add_r by lia. lia.
  - rewrite (Z.max_l 0 (e + 1)), (Z.max_r 0 (- (e + 1))) by lia.
    rewrite (Z.max_l 0 e), (Z.max_r 0 (- e)) in Hhi by lia.
    replace (- e) with (- (e + 1) + 1) in Hhi by lia.
    rewrite Z.pow_add_r in Hhi by lia. lia.
Qed.

Lemma floor_log2_ratio_unique n d e :
  0 < n -> 0 < d ->
  ratio_at_least_pow2 n d e -> ~ ratio_at_least_pow2 n d (e + 1) ->
  floor_log2_ratio n d = e.
Proof.
  intros Hn Hd He Hne.
  destruct (floor_log2_ratio_largest n d Hn Hd) as [Hf Hnf].
  destruct (Z.lt_trichotomy (floor_log2_ratio n d) e) as [Hlt|[Heq|Hgt]];
    [|exact Heq|]; exfalso.
  - apply Hnf. apply (ratio_at_least_pow2_antitone n d _ e); (assumption || lia).
  - apply Hne.
    apply (ratio_at_least_pow2_antitone n d _ (floor_log2_ratio n d));
      (assumption || lia).
Qed.

Lemma floor_log2_ratio_scale k n d :
  0 < k -> 0 < n -> 0 < d ->
  floor_log2_ratio (k * n) (k * d) = floor_log2_ratio n d.
Proof.
  intros Hk Hn Hd. apply floor_log2_ratio_unique; try nia.
  - apply ratio_at_least_pow2_scale; [exact Hk|].
    apply floor_log2_ratio_largest; assumption.
  - rewrite ratio_at_least_pow2_scale by exact Hk.
    apply floor_log2_ratio_largest; assumption.
Qed.

(** Rounding does not depend on how the fraction is written. *)
Lemma round_binary32_scale (k : positive) n d :
  round_binary32 (Z.pos k * n # k * d) = round_binary32 (n # d).
Proof.
  unfold round_binary32. cbn [Qnum Qden].
  destruct (Z.eq_dec n 0) as [->|Hn]; [reflexivity|].
  rewrite Pos2Z.inj_mul, Z.abs_mul. change (Z.abs (Z.pos k)) with (Z.pos k).
  rewrite floor_log2_ratio_scale by lia.
  set (e := Z.max (floor_log2_ratio (Z.abs n) (Z.pos d)) (-126)).
  assert (Hmag :
    (if 0 <=? 23 - e
     then (round_nearest_even (Z.pos k * Z.abs n * 2 ^ (23 - e))
             (Z.pos k * Z.pos d) # Z.to_pos (2 ^ (23 - e)))%Q
     else inject_Z (round_nearest_even (Z.pos k * Z.abs n)
                      (Z.pos k * Z.pos d * 2 ^ (- (23 - e))) * 2 ^ (- (23 - e)))) =
    (if 0 <=? 23 - e
     then (round_nearest_even (Z.abs n * 2 ^ (23 - e)) (Z.pos d)
           # Z.to_pos (2 ^ (23 - e)))%Q
     else inject_Z (round_nearest_even (Z.abs n) (Z.pos d * 2 ^ (- (23 - e)))
                    * 2 ^ (- (23 - e))))).
  { destruct (Z.leb_spec 0 (23 - e)) as [Hk|Hk];
      rewrite <- !Z.mul_assoc, round_nearest_even_scale; try reflexivity; try lia;
      assert (0 < 2 ^ (- (23 - e))) by (apply Z.pow_pos_nonneg; lia); nia. }
  rewrite Hmag.
  destruct n as [|p|p]; [contradiction| |].
  - rewrite <- Pos2Z.inj_mul. reflexivity.
  - change (Z.pos k * Z.neg p) with (Z.neg (k * p)). reflexivity.
Qed.

Lemma fdiv_scale k x p :
  0 < k -> 0 < p ->
  fdiv (float_of_int16 (k * x)) (inject_Z (k * p)) =
  fdiv (float_of_int16 x) (inject_Z p).
Proof.
  intros Hk Hp. rewrite !fdiv_int by nia.
  destruct k as [|k|k]; try lia. destruct p as [|p|p]; try lia.
  change (Z.to_pos (Z.pos k * Z.pos p)) with (k * p)%positive.
  apply round_binary32_scale.
Qed.

Lemma peak_scale k samples :
  0 < k -> peak (map (Z.mul k) samples) = k * peak samples.
Proof.
  intros Hk. induction samples as [|x l IH] using rev_ind; [cbn; lia|].
  rewrite map_app. cbn [map]. rewrite !peak_snoc, IH, Z.abs_mul.
  rewrite (Z.abs_eq k) by lia.
  rewrite Z.mul_max_distr_nonneg_l by lia. reflexivity.
Qed.

Lemma consumed_map f audioData length :
  consumed (map f audioData) length = map f (consumed audioData length).
Proof. unfold consumed. apply firstn_map. Qed.

Lemma expected_buffer_scale k audioData length :
  0 < k ->
  expected_buffer (map (Z.mul k) audioData) length = expected_buffer audioData length.
Proof.
  intros Hk. unfold expected_buffer.
  rewrite consumed_map, peak_scale, length_map by exact Hk.
  set (window := consumed audioData length). f_equal.
  destruct (Z.ltb_spec 0 (peak window)) as [Hp|Hp].
  - destruct (Z.ltb_spec 0 (k * peak window)); [|nia].
    rewrite map_map. apply map_ext. intros x. apply fdiv_scale; assumption.
  - destruct (Z.ltb_spec 0 (k * peak window)); [nia|].
    assert (Hz : peak window = 0) by (pose proof (peak_nonneg window); lia).
    rewrite map_map. apply map_ext_in. intros x Hx.
    apply list_elem_of_In in Hx.
    pose proof (peak_upper window x Hx).
    assert (x = 0) by lia. subst x. rewrite Z.mul_0_r. reflexivity.
Qed.

(** X8: amplifying a window by a positive factor (the amplified samples still
    being 16-bit) multiplies the peak by that factor and leaves the
    normalised buffer exactly as it was. *)
Theorem normalize_is_gain_invariant (audioData : list Z) (length k : Z) :
  0 < k ->
  Forall is_int16 audioData -> Forall is_int16 (map (Z.mul k) audioData) ->
  0 <= length <= INT_MAX -> length <= Z.of_nat (List.length audioData) ->
  exists floatData,
    normalize audioData length =
      Normal (floatData, inject_Z (peak (consumed audioData length))) /\
    normalize (map (Z.mul k) audioData) length =
      Normal (floatData, inject_Z (k * peak (consumed audioData length))).
Proof.
  intros Hk _ _ Hlen Hptr. exists (expected_buffer audioData length).
  split; [apply normalize_correct; assumption|].
  rewrite normalize_correct by (rewrite ?length_map; assumption).
  rewrite expected_buffer_scale, consumed_map, peak_scale by exact Hk.
  reflexivity.
Qed.

Lemma Qopp_involutive_eq (q : Q) : (- - q)%Q = q.
Proof. destruct q as [n d]. unfold Qopp. cbn. rewrite Z.opp_involutive. reflexivity. Qed.

Lemma round_binary32_opp n d :
  round_binary32 (- n # d) = (- round_binary32 (n # d))%Q.
Proof.
  unfold round_binary32. cbn [Qnum Qden].
  destruct n as [|p|p]; [reflexivity| |]; cbn [Z.opp Z.abs Z.ltb Z.compare].
  - apply Qred_opp.
  - rewrite Qred_opp, Qopp_involutive_eq. reflexivity.
Qed.

Lemma fdiv_opp x p :
  0 < p ->
  fdiv (float_of_int16 (- x)) (inject_Z p) =
  (- fdiv (float_of_int16 x) (inject_Z p))%Q.
Proof. intros Hp. rewrite !fdiv_int by exact Hp. apply round_binary32_opp. Qed.

Lemma peak_opp samples : peak (map Z.opp samples) = peak samples.
Proof.
  induction samples as [|x l IH] using rev_ind; [reflexivity|].
  rewrite map_app. cbn [map]. rewrite !peak_snoc, IH, Z.abs_opp. reflexivity.
Qed.

Lemma expected_buffer_opp audioData length :
  expected_buffer (map Z.opp audioData) length =
  map Qopp (expected_buffer audioData length).
Proof.
  unfold expected_buffer.
  rewrite consumed_map, peak_opp, length_map.
  set (window := consumed audioData length).
  rewrite map_app. f_equal.
  - destruct (Z.ltb_spec 0 (peak window)) as [Hp|Hp]; rewrite !map_map.
    + apply map_ext. intros x. apply fdiv_opp. exact Hp.
    + apply map_ext. intros x. reflexivity.
  - induction (Z.to_nat length - List.length window)%nat as [|j IH];
      [reflexivity|]. cbn. rewrite <- IH. reflexivity.
Qed.

(** X10: inverting the polarity of a window (no sample being -32768, so that
    the inverted samples are 16-bit too) keeps the peak and negates every
    slot of the normalised buffer. *)
Theorem normalize_commutes_with_polarity_inversion
    (audioData : list Z) (length : Z) :
  Forall (fun x => - 32768 < x <= 32767) audioData ->
  0 <= length <= INT_MAX -> length <= Z.of_nat (List.length audioData) ->
  exists floatData,
    normalize audioData length =
      Normal (floatData, inject_Z (peak (consumed audioData length))) /\
    normalize (map Z.opp audioData) length =
      Normal (map Qopp floatData, inject_Z (peak (consumed audioData length))).
Proof.
  intros _ Hlen Hptr. exists (expected_buffer audioData length).
  split; [apply normalize_correct; assumption|].
  rewrite normalize_correct by (rewrite ?length_map; assumption).
  rewrite expected_buffer_opp, consumed_map, peak_opp. reflexivity.
Qed.

Section Gain.

Context {W : Type} (api : TfLiteApi W).

(** X9: through [processAudio]: amplifying the window by a positive factor
    changes neither the result of the call nor the library world it
    leaves; only the amplitude written to the log differs. *)
Theorem processAudio_is_gain_invariant
    (this : MLProcessor) (audioData : list Z) (length k : Z) (s : state W) :
  0 < k ->
  Forall is_int16 audioData -> Forall is_int16 (map (Z.mul k) audioData) ->
  0 <= length <= INT_MAX -> length <= Z.of_nat (List.length audioData) ->
  observable (processAudio api this (map (Z.mul k) audioData) length s) =
  observable (processAudio api this audioData length s).
Proof.
  intros Hk _ _ Hlen Hptr.
  eapply processAudio_observable.
  - apply normalize_correct; rewrite ?length_map; assumption.
  - apply normalize_correct; assumption.
  - intros i s1 s2 _ Hw1 Hw2. rewrite expected_buffer_scale by exact Hk.
    apply copy_from_buffer_world. congruence.
Qed.

End Gain.

(** ** Signs and zeros *)

Lemma round_nearest_even_floor n d :
  0 < d -> n / d <= round_nearest_even n d.
Proof.
  intros Hd. unfold round_nearest_even.
  destruct (2 * (n mod d) ?= d); [destruct (Z.even (n / d))| |]; lia.
Qed.

(** A ratio between 2^-126 and 1 is rounded to a positive value: nothing
    is flushed to zero. *)
Lemma round_binary32_positive n d :
  0 < n -> n <= Z.pos d -> Z.pos d <= n * 2 ^ 126 ->
  (0 < round_binary32 (n # d))%Q.
Proof.
  intros Hn Hle Hlow. destruct n as [|p|p]; try lia.
  destruct (floor_log2_ratio_largest (Z.pos p) (Z.pos d) Hn ltac:(lia))
    as [Hf Hnf].
  pose proof (floor_log2_ratio_le_0 (Z.pos p) (Z.pos d) Hn Hle) as He0.
  unfold round_binary32. cbn [Qnum Qden Z.ltb Z.compare].
  change (Z.abs (Z.pos p)) with (Z.pos p).
  set (e := floor_log2_ratio (Z.pos p) (Z.pos d)) in *.
  assert (Hge : - 126 <= e).
  { destruct (Z.le_gt_cases (- 126) e) as [|Hlt]; [assumption|]. exfalso.
    apply Hnf.
    apply (ratio_at_least_pow2_antitone (Z.pos p) (Z.pos d) _ (- 126)); try lia.
    unfold ratio_at_least_pow2.
    change (Z.max 0 (-126)) with 0. change (Z.max 0 (- -126)) with 126.
    rewrite Z.pow_0_r, Z.mul_1_r. exact Hlow. }
  rewrite Z.max_l by lia.
  destruct (Z.leb_spec 0 (23 - e)); [|lia].
  rewrite Qred_correct.
  assert (Hp : 0 < 2 ^ (23 - e)) by (apply Z.pow_pos_nonneg; lia).
  unfold Qlt. cbn [Qnum Qden]. rewrite Z.mul_1_r, Z.mul_0_l.
  pose proof (round_nearest_even_floor (Z.pos p * 2 ^ (23 - e)) (Z.pos d)
                ltac:(lia)) as Hfl.
  assert (2 ^ 23 <= Z.pos p * 2 ^ (23 - e) / Z.pos d).
  { apply Z.div_le_lower_bound; [lia|].
    unfold ratio_at_least_pow2 in Hf.
    rewrite (Z.max_l 0 e), (Z.max_r 0 (- e)) in Hf by lia.
    replace (23 - e) with (- e + 23) by lia.
    rewrite Z.pow_add_r by lia. rewrite Z.pow_0_r in Hf. nia. }
  lia.
Qed.

Lemma fdiv_positive x p :
  0 < x <= p -> p <= 32768 ->
  (0 < fdiv (float_of_int16 x) (inject_Z p))%Q.
Proof.
  intros Hx Hp. rewrite fdiv_int by lia.
  apply round_binary32_positive; rewrite ?Z2Pos.id; lia.
Qed.

Lemma fdiv_zero p : 0 < p -> fdiv (float_of_int16 0) (inject_Z p) = 0%Q.
Proof. intros Hp. rewrite fdiv_int by exact Hp. reflexivity. Qed.

(** X11: with a positive peak, every consumed 16-bit sample keeps its sign: a
    positive sample becomes a value in (0, 1], a negative one a value in
    [-1, 0), a zero stays exactly zero (no non-zero sample is flushed to
    zero), and a sample equal to the peak or to its opposite becomes
    exactly 1 or -1. *)
Theorem normalize_keeps_signs_and_zeros (audioData : list Z) (length : Z) :
  Forall is_int16 audioData ->
  0 <= length <= INT_MAX -> length <= Z.of_nat (List.length audioData) ->
  let window := consumed audioData length in
  0 < peak window ->
  exists floatData,
    normalize audioData length = Normal (floatData, inject_Z (peak window)) /\
    forall i x, window !! i = Some x ->
      exists v, floatData !! i = Some v /\
        (0 < x -> (0 < v <= 1)%Q) /\
        (x < 0 -> (-1 <= v < 0)%Q) /\
        (x = 0 -> v = 0%Q) /\
        (x = peak window -> v = 1%Q) /\
        (x = - peak window -> v = (-1)%Q).
Proof.
  intros Hint Hlen Hptr window Hpos.
  exists (expected_buffer audioData length).
  split; [apply normalize_correct; assumption|].
  intros i x Hx.
  assert (Hin : x ∈ window) by (eapply list_elem_of_lookup_2; exact Hx).
  pose proof (peak_upper window x Hin) as Hup.
  assert (Hw16 : forall y, y ∈ window -> is_int16 y).
  { intros y Hy. rewrite Forall_forall in Hint. apply Hint.
    exact (subseteq_take _ _ y Hy). }
  assert (Hp16 : peak window <= 32768).
  { destruct (peak_attained window Hpos) as (y & Hy & <-).
    pose proof (Hw16 y Hy) as H16. unfold is_int16 in H16. lia. }
  exists (fdiv (float_of_int16 x) (inject_Z (peak window))). split.
  { unfold expected_buffer. fold window.
    destruct (Z.ltb_spec 0 (peak window)); [|lia].
    change (map ?f window) with (f <$> window).
    rewrite lookup_app_l
      by (rewrite length_fmap; eapply lookup_lt_Some; exact Hx).
    rewrite list_lookup_fmap, Hx. reflexivity. }
  pose proof (fdiv_peak_range x (peak window) Hpos Hup) as [Hlo Hhi].
  split; [|split; [|split; [|split]]].
  - intros Hxp. split; [apply fdiv_positive; lia | exact Hhi].
  - intros Hxn. split; [exact Hlo|].
    replace x with (- - x) by lia. rewrite fdiv_opp by exact Hpos.
    pose proof (fdiv_positive (- x) (peak window) ltac:(lia) Hp16) as Hq.
    apply Qopp_lt_compat in Hq. exact Hq.
  - intros ->. apply fdiv_zero. exact Hpos.
  - intros ->. rewrite fdiv_int by exact Hpos.
    destruct (peak window) as [|p|p]; try lia. cbn [Z.to_pos].
    unfold round_binary32. cbn [Qnum Qden Z.abs Z.ltb Z.compare].
    destruct (round_binary32_small (Z.pos p) p ltac:(lia) ltac:(lia))
      as (k & m & Hk & Hm & Hex & Hr).
    unfold round_binary32 in Hr. cbn [Qnum Qden Z.abs Z.ltb Z.compare] in Hr.
    rewrite Hr, (Hex eq_refl). apply Qred_eq_1.
    assert (0 < 2 ^ k) by (apply Z.pow_pos_nonneg; lia).
    unfold Qeq. cbn [Qnum Qden]. rewrite Z2Pos.id by lia. lia.
  - intros ->. rewrite fdiv_opp by exact Hpos. 
    rewrite fdiv_int by exact Hpos.
    destruct (peak window) as [|p|p]; try lia. cbn [Z.to_pos].
    destruct (round_binary32_small (Z.pos p) p ltac:(lia) ltac:(lia))
      as (k & m & Hk & Hm & Hex & Hr).
    rewrite Hr, (Hex eq_refl). cbn [Z.ltb Z.compare].
    rewrite Qred_eq_1; [reflexivity|].
    assert (0 < 2 ^ k) by (apply Z.pow_pos_nonneg; lia).
    unfold Qeq. cbn [Qnum Qden]. rewrite Z2Pos.id by lia. lia.
Qed.

(** ** The bridge: handles *)

Section Handles.

Context {W jstring jshortArray : Type}.
Context (api : TfLiteApi W) (env : JNIEnv jstring jshortArray).

Lemma nativeProcessAudio_null (audioData : jshortArray) (s : state W) :
  nativeProcessAudio api env 0 audioData s =
  Normal ([], logged s (error_line ANDROID_LOG_ERROR "Invalid processor handle")).
Proof. reflexivity. Qed.

(** X1: when the model path cannot be read from the Java string, [nativeInit]
    returns the null handle without constructing anything, and that handle
    is harmless: [nativeProcessAudio] on it returns an empty array and
    [nativeClose] on it does nothing.  After the three calls the library
    world and the heap are as they were and three diagnostics have been
    logged. *)
Theorem nativeInit_without_path_gives_a_harmless_handle
    (modelPath : jstring) (audioData : jshortArray) (s : state W) :
  GetStringUTFChars env modelPath = None ->
  exists s1 s2 s3,
    nativeInit api env modelPath s = Normal (0, s1) /\
    nativeProcessAudio api env 0 audioData s1 = Normal ([], s2) /\
    nativeClose api 0 s2 = Normal (tt, s3) /\
    world s3 = world s /\ heap s3 = heap s /\
    log s3 = log s ++
      [error_line ANDROID_LOG_ERROR "Failed to get string from Java";
       error_line ANDROID_LOG_ERROR "Invalid processor handle";
       error_line ANDROID_LOG_ERROR "Attempted to close invalid processor handle"].
Proof.
  intros Hpath. unfold nativeInit. rewrite Hpath.
  eexists _, _, _. split; [reflexivity|].
  split; [apply nativeProcessAudio_null|].
  split; [reflexivity|].
  cbn [logged world heap log]. rewrite <- !app_assoc. auto.
Qed.

Lemma nativeInit_run (modelPath : jstring) (path : string) (s s0 : state W) this :
  GetStringUTFChars env modelPath = Some path ->
  MLProcessor_ctor api uninitialized path
    (logged s {| level := ANDROID_LOG_INFO;
                 format := "Initializing MLProcessor with model: %s";
                 arguments := [arg_string path] |}) = Normal (this, s0) ->
  nativeInit api env modelPath s =
  Normal (Z.pos (fresh (dom (heap s))),
          {| world := world s0; log := log s0;
             heap := <[fresh (dom (heap s)) := this]> (heap s) |}).
Proof.
  intros Hpath Hctor. unfold nativeInit. rewrite Hpath.
  unfold seq_bind at 1. unfold LOGI, write_log.
  unfold seq_bind, ret, new_MLProcessor.
  unfold logged in Hctor. cbn [heap]. rewrite Hctor.
  destruct (MLProcessor_ctor_frame api _ _ _ _ _ Hctor) as [Hheap _].
  cbn [heap] in Hheap. rewrite Hheap. reflexivity.
Qed.

Lemma fresh_handle_not_live (s : state W) :
  heap s !! fresh (dom (heap s)) = None.
Proof. apply not_elem_of_dom. apply is_fresh. Qed.

(** X2: [nativeInit] with a readable path always returns, and always returns a
    non-null handle, whether or not the model loads: the handle was not
    live before, it now designates the object the constructor left, and
    every handle that was live still designates its object. *)
Theorem nativeInit_returns_a_fresh_handle
    (modelPath : jstring) (path : string) (s : state W) :
  GetStringUTFChars env modelPath = Some path ->
  exists handle this s0 s',
    nativeInit api env modelPath s = Normal (handle, s') /\
    handle <> 0 /\
    object_at handle s = None /\
    MLProcessor_ctor api uninitialized path
      (logged s {| level := ANDROID_LOG_INFO;
                   format := "Initializing MLProcessor with model: %s";
                   arguments := [arg_string path] |}) = Normal (this, s0) /\
    object_at handle s' = Some this /\
    world s' = world s0 /\ log s' = log s0 /\
    (forall other, object_at other s = None \/ object_at other s' = object_at other s).
Proof.
  intros Hpath.
  destruct (MLProcessor_ctor_returns api uninitialized path
              (logged s {| level := ANDROID_LOG_INFO;
                           format := "Initializing MLProcessor with model: %s";
                           arguments := [arg_string path] |}))
    as (this & s0 & Hctor).
  eexists _, this, s0, _. split; [exact (nativeInit_run _ _ _ _ _ Hpath Hctor)|].
  split; [discriminate|].
  split; [apply fresh_handle_not_live|].
  split; [exact Hctor|].
  unfold object_at. cbn [heap world log].
  split; [apply lookup_insert_eq|]. split; [reflexivity|]. split; [reflexivity|].
  intros [|b|b]; [left; reflexivity| |left; reflexivity].
  destruct (decide (b = fresh (dom (heap s)))) as [->|Hne].
  - left. apply fresh_handle_not_live.
  - right. apply lookup_insert_ne. congruence.
Qed.

(** X3: creating a processor and closing it again, when the model loads and an
    interpreter is created: both calls return, the heap is back to what it
    was, and the library has seen the interpreter released first, then the
    options (if any), then the model. *)
Theorem nativeInit_then_nativeClose_releases_everything
    (modelPath : jstring) (path : string) (s : state W)
    (m o i : Z) (w1 w2 w3 w4 : W) (status : TfLiteStatus) :
  GetStringUTFChars env modelPath = Some path ->
  TfLiteModelCreateFromFile api path (world s) = (m, w1) -> m <> 0 ->
  TfLiteInterpreterOptionsCreate api w1 = (o, w2) ->
  TfLiteInterpreterCreate api m o
    (TfLiteInterpreterOptionsSetNumThreads api o 2 w2) = (i, w3) -> i <> 0 ->
  TfLiteInterpreterAllocateTensors api i w3 = (status, w4) ->
  exists handle s1 s2,
    nativeInit api env modelPath s = Normal (handle, s1) /\
    nativeClose api handle s1 = Normal (tt, s2) /\
    heap s2 = heap s /\
    world s2 =
      TfLiteModelDelete api m
        (if o =? 0 then TfLiteInterpreterDelete api i w4
         else TfLiteInterpreterOptionsDelete api o
                (TfLiteInterpreterDelete api i w4)).
Proof.
  intros Hpath Hm Hmz Ho Hi Hiz Ha.
  set (line := {| level := ANDROID_LOG_INFO;
                  format := "Initializing MLProcessor with model: %s";
                  arguments := [arg_string path] |}).
  destruct (MLProcessor_ctor_ignores_allocation api path (logged s line)
              m w1 o w2 i w3 status w4 Hm Hmz Ho Hi Hiz Ha) as (lines & Hctor).
  destruct (o =? 0) eqn:Hoz;
    (eexists _, _, _; split; [exact (nativeInit_run _ _ _ _ _ Hpath Hctor)|];
     unfold nativeClose, delete_MLProcessor; cbn [Z.eqb negb];
     unfold seq_bind at 1; unfold LOGI, write_log;
     unfold object_at; cbn [heap world log]; rewrite lookup_insert_eq;
     unfold MLProcessor_dtor; unfold_stmt;
     cbn [read_member interpreter options model world log heap];
     destruct (Z.eqb_spec i 0); [contradiction|];
     destruct (Z.eqb_spec m 0); [contradiction|];
     rewrite Hoz; cbn [negb world log heap];
     split; [reflexivity|];
     split; [apply delete_insert_id, fresh_handle_not_live | reflexivity]).
Qed.

Lemma processAudio_heap this audioData length (s s' : state W) v :
  processAudio api this audioData length s = Normal (v, s') -> heap s' = heap s.
Proof.
  rewrite processAudio_branches.
  destruct (interpreter this) as [|i]; [discriminate|].
  destruct (i =? 0). { intros H. injection H as <- <-. reflexivity. }
  cbv zeta. destruct (_ =? 0). { intros H. injection H as <- <-. reflexivity. }
  destruct (fill_input _ _ _ _ _) as [[[] s1]| |] eqn:Hfill; try discriminate.
  destruct (fill_input_frame api _ _ _ _ _ _ Hfill) as [Hheap _].
  destruct (negb _). { intros H. injection H as <- <-. exact Hheap. }
  cbn [world]. destruct (_ =? 0). { intros H. injection H as <- <-. exact Hheap. }
  intros H. apply read_output_sound in H as [-> _]. exact Hheap.
Qed.

(** X12: on a live handle, with a positive array length and the elements
    available, [nativeProcessAudio] runs [processAudio] on the designated
    object, after logging the number of samples, and catches nothing: an
    exception or an undefined behaviour of [processAudio] is that of the
    bridge.  When [processAudio] returns, the bridge returns too; it leaves
    the state [processAudio] left, with one more line that reports the size
    of the vector, and every handle designates the object it designated
    before, so the processor can be used again.  Nothing is said of the
    array handed back, which depends on [NewFloatArray]. *)
Theorem nativeProcessAudio_passes_processAudio_through
    (handle : Z) (this : MLProcessor) (audioData : jshortArray)
    (data : list Z) (s : state W) :
  object_at handle s = Some this ->
  0 < GetArrayLength env audioData ->
  GetShortArrayElements env audioData = Some data ->
  let started :=
    logged s {| level := ANDROID_LOG_INFO; format := "Processing %d audio samples";
                arguments := [arg_int (GetArrayLength env audioData)] |} in
  let run := processAudio api this data (GetArrayLength env audioData) started in
  (forall e, run = Throws e ->
     nativeProcessAudio api env handle audioData s = Throws e) /\
  (forall u, run = Undefined u ->
     nativeProcessAudio api env handle audioData s = Undefined u) /\
  (forall v s1, run = Normal (v, s1) ->
     let returned :=
       logged s1 {| level := ANDROID_LOG_INFO; format := "Returned %zu predictions";
                    arguments := [arg_int (Z.of_nat (List.length v))] |} in
     final_state (nativeProcessAudio api env handle audioData s) = Some returned /\
     forall other, object_at other returned = object_at other s).
Proof.
  intros Hobj Hlen Hdata started run.
  assert (Hrun : nativeProcessAudio api env handle audioData s =
    match run with
    | Normal (v, s1) =>
        Normal (v, logged s1 {| level := ANDROID_LOG_INFO;
                                format := "Returned %zu predictions";
                                arguments := [arg_int (Z.of_nat (List.length v))] |})
    | Throws e => Throws e
    | Undefined u => Undefined u
    end).
  { unfold nativeProcessAudio.
    destruct (Z.eqb_spec handle 0) as [->|_]; [discriminate|].
    destruct (Z.leb_spec (GetArrayLength env audioData) 0); [lia|].
    rewrite Hdata. unfold seq_bind at 1. unfold LOGI at 1, write_log.
    unfold seq_bind at 1. cbv beta. unfold run, started, logged.
    unfold object_at in *. cbn [heap]. rewrite Hobj.
    destruct (processAudio api this data _ _) as [[v s1]| |]; reflexivity. }
  rewrite Hrun. split; [|split].
  - intros e ->. reflexivity.
  - intros u ->. reflexivity.
  - intros v s1 E returned. rewrite E. split; [reflexivity|].
    intros other. apply processAudio_heap in E.
    unfold object_at, returned. cbn [logged heap]. rewrite E. reflexivity.
Qed.

(** X13: [nativeProcessAudio] on the null handle, or on an array whose elements
    cannot be obtained, returns an empty array; it leaves the library world
    and the heap alone and the last line it logs is an error diagnostic. *)
Theorem nativeProcessAudio_gives_up_without_handle_or_elements
    (handle : Z) (audioData : jshortArray) (s : state W) :
  handle = 0 \/ GetShortArrayElements env audioData = None ->
  exists info msg,
    nativeProcessAudio api env handle audioData s =
    Normal ([], {| world := world s;
                   log := log s ++ info ++ [error_line ANDROID_LOG_ERROR msg];
                   heap := heap s |}) /\
    Forall (fun line => level line = ANDROID_LOG_INFO) info.
Proof.
  intros H. unfold nativeProcessAudio.
  destruct (Z.eqb_spec handle 0) as [->|Hnz].
  { exists [], "Invalid processor handle". split; [reflexivity | constructor]. }
  destruct H as [|Hnone]; [contradiction|].
  destruct (GetArrayLength env audioData <=? 0).
  { exists [], "Empty audio data array". split; [reflexivity | constructor]. }
  rewrite Hnone.
  exists [{| level := ANDROID_LOG_INFO; format := "Processing %d audio samples";
             arguments := [arg_int (GetArrayLength env audioData)] |}],
         "Failed to get array elements".
  split.
  - unfold seq_bind, LOGI, LOGE, write_log, ret. cbn [world log heap].
    rewrite <- app_assoc. reflexivity.
  - constructor; [reflexivity | constructor].
Qed.

End Handles.

(** ** The further properties on the test double *)

Lemma ramp_is_int16 (n : nat) :
  Z.of_nat n <= 32767 -> Forall is_int16 (ramp n).
Proof.
  intros Hn. apply Forall_forall. intros x Hx. unfold ramp in Hx.
  apply list_elem_of_In, in_map_iff in Hx as (j & <- & Hj).
  apply in_seq in Hj. unfold is_int16. lia.
Qed.

Lemma scaled_ramp_is_int16 (k : Z) (n : nat) :
  0 < k -> k * Z.of_nat n <= 32767 -> Forall is_int16 (map (Z.mul k) (ramp n)).
Proof.
  intros Hk Hn. apply Forall_forall. intros x Hx. unfold ramp in Hx.
  apply list_elem_of_In, in_map_iff in Hx as (y & <- & Hy).
  apply in_map_iff in Hy as (j & <- & Hj).
  apply in_seq in Hj. unfold is_int16. nia.
Qed.

Lemma processAudio_logs_an_error_exactly_on_failure_witness :
  exists v,
    processAudio stub_api stub_processor (ramp 512) 512 (ready_state [2; 5]) =
      Normal (v, stub_invoked [2; 5]) /\
    heap (stub_invoked [2; 5]) = heap (ready_state [2; 5]).
Proof.
  assert (Hrun : { v | processAudio stub_api stub_processor (ramp 512) 512
                         (ready_state [2; 5]) = Normal (v, stub_invoked [2; 5]) })
    by (eexists; vm_compute; reflexivity).
  destruct Hrun as [v Hrun]. exists v. split; [exact Hrun|].
  exact (proj1 (processAudio_logs_an_error_exactly_on_failure stub_api
                  stub_processor (ramp 512) 512 (ready_state [2; 5])
                  (stub_invoked [2; 5]) v Hrun)).
Defined.

Lemma processAudio_lets_length_error_escape_witness :
  processAudio stub_api stub_processor [] (-1) (ready_state [1; 2]) =
    Throws length_error /\
  processAudio stub_api stub_processor (ramp 512) 512 (ready_state [2; -3]) =
    Throws length_error.
Proof.
  split.
  - refine (proj1 (processAudio_lets_length_error_escape stub_api stub_processor
                     [] (-1) (ready_state [1; 2]))
              stub_interpreter eq_refl _ _ _).
    + discriminate.
    + discriminate.
    + unfold INT_MIN. lia.
  - refine (proj2 (processAudio_lets_length_error_escape stub_api stub_processor
                     (ramp 512) 512 (ready_state [2; -3]))
              (stub_invoked [2; -3]) stub_output_tensor
              (stub_reaches_output [2; -3]) _ _).
    + intros [|[|[|k]]]; vm_compute; split; discriminate.
    + vm_compute. reflexivity.
Defined.

Lemma processAudio_ignores_the_audio_on_a_size_mismatch_witness :
  processAudio stub_api_one_float_input stub_processor (ramp 512) 512
    (ready_state [1]) =
  invoke_and_extract stub_api_one_float_input stub_interpreter
    (logged (ready_state [1])
       (amplitude_line (inject_Z (peak (consumed (ramp 512) 512))))) /\
  observable (processAudio stub_api_one_float_input stub_processor (ramp 512) 512
                (ready_state [1])) =
  observable (processAudio stub_api_one_float_input stub_processor [5; -5] 2
                (ready_state [1])).
Proof.
  assert (H := processAudio_ignores_the_audio_on_a_size_mismatch
                 stub_api_one_float_input stub_processor stub_interpreter
                 (ramp 512) [5; -5] 512 2 (ready_state [1]) eq_refl).
  destruct H as (_ & Hrun & _ & Hobs).
  - discriminate.
  - discriminate.
  - vm_compute. discriminate.
  - const_lia.
  - apply Z.leb_le. vm_compute. reflexivity.
  - const_lia.
  - cbn. lia.
  - split; assumption.
Defined.

(** On the test double whose input tensor holds one float, a call on a
    full window stores nothing into the tensor and invokes the interpreter
    once. *)
Example size_mismatch_on_the_test_double :
  option_map (fun s => (eng_stores (world s), eng_invokes (world s)))
    (final_state (processAudio stub_api_one_float_input stub_processor
                    (ramp 512) 512 (ready_state [1]))) =
  Some (0%nat, 1%nat).
Proof. vm_compute. reflexivity. Qed.

Lemma failed_interpreter_creation_is_handled_witness :
  exists s1 s2,
    MLProcessor_ctor stub_api_without_interpreter uninitialized "model.tflite"
      (initial_state kTfLiteOk [1; 2]) =
      Normal ({| model := Pointer stub_model; interpreter := Pointer 0;
                 options := Pointer stub_options |}, s1) /\
    run_all
      (map (fun input =>
              processAudio stub_api_without_interpreter
                {| model := Pointer stub_model; interpreter := Pointer 0;
                   options := Pointer stub_options |} (fst input) (snd input))
           [(ramp 512, 512); ([], -1); ([1], 1)]) s1 =
      Normal ([[]; []; []], s2).
Proof.
  destruct (failed_interpreter_creation_is_handled stub_api_without_interpreter
              "model.tflite" (initial_state kTfLiteOk [1; 2])
              stub_model stub_options
              (stub_engine kTfLiteOk [1; 2]) (stub_engine kTfLiteOk [1; 2])
              (stub_engine kTfLiteOk [1; 2]))
    as (s1 & Hctor & _ & Hcalls);
    [reflexivity | discriminate | reflexivity | reflexivity |].
  destruct (Hcalls [(ramp 512, 512); ([], -1); ([1], 1)]) as (s2 & Hrun & _).
  exists s1, s2. split; assumption.
Defined.

Lemma normalize_is_gain_invariant_witness :
  exists floatData,
    normalize [3; -6; 2] 3 = Normal (floatData, inject_Z 6) /\
    normalize [15; -30; 10] 3 = Normal (floatData, inject_Z 30).
Proof.
  refine (normalize_is_gain_invariant [3; -6; 2] 3 5 _ _ _ _ _).
  - lia.
  - repeat constructor; unfold is_int16; lia.
  - repeat constructor; unfold is_int16; lia.
  - const_lia.
  - cbn. lia.
Defined.

Lemma normalize_commutes_with_polarity_inversion_witness :
  exists floatData,
    normalize [3; -6; 2] 3 = Normal (floatData, inject_Z 6) /\
    normalize [-3; 6; -2] 3 = Normal (map Qopp floatData, inject_Z 6).
Proof.
  refine (normalize_commutes_with_polarity_inversion [3; -6; 2] 3 _ _ _).
  - repeat constructor; lia.
  - const_lia.
  - cbn. lia.
Defined.

Lemma normalize_keeps_signs_and_zeros_witness :
  exists floatData v,
    normalize [3; -6; 0; 6] 4 = Normal (floatData, inject_Z 6) /\
    floatData !! 1%nat = Some v /\ (-1 <= v < 0)%Q.
Proof.
  destruct (normalize_keeps_signs_and_zeros [3; -6; 0; 6] 4)
    as (floatData & Hrun & Hall).
  - repeat constructor; unfold is_int16; lia.
  - const_lia.
  - cbn. lia.
  - vm_compute. reflexivity.
  - destruct (Hall 1%nat (-6) eq_refl) as (v & Hv & _ & Hneg & _).
    exists floatData, v. split; [exact Hrun|]. split; [exact Hv|].
    apply Hneg. lia.
Defined.

Lemma processAudio_is_gain_invariant_witness :
  observable (processAudio stub_api stub_processor (map (Z.mul 2) (ramp 512)) 512
                (ready_state [2; 5])) =
  observable (processAudio stub_api stub_processor (ramp 512) 512
                (ready_state [2; 5])).
Proof.
  refine (processAudio_is_gain_invariant stub_api stub_processor (ramp 512) 512 2
            (ready_state [2; 5]) _ _ _ _ _).
  - lia.
  - apply ramp_is_int16. cbn. lia.
  - apply scaled_ramp_is_int16; cbn; lia.
  - const_lia.
  - apply Z.leb_le. vm_compute. reflexivity.
Defined.

Lemma nativeInit_without_path_gives_a_harmless_handle_witness :
  exists s1,
    nativeInit stub_api stringless_env "model.tflite"
      (initial_state kTfLiteOk [1; 2]) = Normal (0, s1).
Proof.
  destruct (nativeInit_without_path_gives_a_harmless_handle stub_api
              stringless_env "model.tflite" (ramp 512)
              (initial_state kTfLiteOk [1; 2]))
    as (s1 & _ & _ & Hinit & _); [reflexivity|].
  exists s1. exact Hinit.
Defined.

Lemma nativeInit_returns_a_fresh_handle_witness :
  exists handle s',
    nativeInit stub_api stub_env "model.tflite" live_state = Normal (handle, s') /\
    handle <> 0 /\ object_at handle live_state = None /\
    object_at 1 s' = Some stub_processor.
Proof.
  destruct (nativeInit_returns_a_fresh_handle stub_api stub_env "model.tflite"
              "model.tflite" live_state)
    as (handle & this & s0 & s' & Hinit & Hnz & Hfresh & _ & _ & _ & _ & Hkeep);
    [reflexivity|].
  exists handle, s'. repeat split; try assumption.
  destruct (Hkeep 1) as [Hnone|Hsame].
  - vm_compute in Hnone. discriminate.
  - rewrite Hsame. vm_compute. reflexivity.
Defined.

Lemma nativeInit_then_nativeClose_releases_everything_witness :
  exists handle s1 s2,
    nativeInit stub_api stub_env "model.tflite" live_state = Normal (handle, s1) /\
    nativeClose stub_api handle s1 = Normal (tt, s2) /\
    heap s2 = heap live_state.
Proof.
  destruct (nativeInit_then_nativeClose_releases_everything stub_api stub_env
              "model.tflite" "model.tflite" live_state
              stub_model stub_options stub_interpreter
              (allocated_engine [1; 2]) (allocated_engine [1; 2])
              (allocated_engine [1; 2]) (allocated_engine [1; 2]) kTfLiteOk)
    as (handle & s1 & s2 & Hinit & Hclose & Hheap & _);
    [reflexivity | reflexivity | discriminate | reflexivity | reflexivity
    | discriminate | reflexivity |].
  exists handle, s1, s2. repeat split; assumption.
Defined.

Lemma nativeProcessAudio_passes_processAudio_through_witness :
  exists v s1,
    processAudio stub_api stub_processor (ramp 512) 512
      (logged live_state
         {| level := ANDROID_LOG_INFO; format := "Processing %d audio samples";
            arguments := [arg_int 512] |}) = Normal (v, s1) /\
    final_state (nativeProcessAudio stub_api stub_env 1 (ramp 512) live_state) =
      Some (logged s1 {| level := ANDROID_LOG_INFO;
                         format := "Returned %zu predictions";
                         arguments := [arg_int (Z.of_nat (List.length v))] |}).
Proof.
  assert (Hrun :
    { r | processAudio stub_api stub_processor (ramp 512) 512
            (logged live_state
               {| level := ANDROID_LOG_INFO;
                  format := "Processing %d audio samples";
                  arguments := [arg_int 512] |}) = Normal r })
    by (eexists; vm_compute; reflexivity).
  destruct Hrun as [[v s1] Hrun]. exists v, s1. split; [exact Hrun|].
  assert (Hlen : 0 < GetArrayLength stub_env (ramp 512)) by (vm_compute; reflexivity).
  exact (proj1 (proj2 (proj2 (nativeProcessAudio_passes_processAudio_through
                                stub_api stub_env 1 stub_processor (ramp 512)
                                (ramp 512) live_state eq_refl Hlen eq_refl))
                  v s1 Hrun)).
Defined.

Lemma nativeProcessAudio_gives_up_without_handle_or_elements_witness :
  exists info msg,
    nativeProcessAudio stub_api length_env 1 5 live_state =
    Normal ([], {| world := world live_state;
                   log := log live_state ++ info ++
                          [error_line ANDROID_LOG_ERROR msg];
                   heap := heap live_state |}).
Proof.
  destruct (nativeProcessAudio_gives_up_without_handle_or_elements stub_api
              length_env 1 5 live_state (or_intror eq_refl))
    as (info & msg & Hrun & _).
  exists info, msg. exact Hrun.
Defined.
